(** * VariableMemoryManager: a page-backed, worst-fit heap allocator

    Shallow embedding of [MemoryManager.h] / [MemoryManager.cpp].

    Target.  The sources are written for a 32-bit target: the test driver
    documents "the meta data header size (16 bytes)", and [MemoryDump]
    casts a pointer to [unsigned].  On that target [unsigned] and [size_t]
    are 32 bits wide, [unsigned short] is 16 bits wide and
    [sizeof(MetaData)] is 4 + 4 + 4 + 2 + 1 + 1 = 16.

    Memory.  Block headers live inside the page buffers and are reached by
    pointer arithmetic and [reinterpret_cast].  Memory is therefore modelled
    as what a header-typed read finds at every address ([memory]); a header
    is written field by field, in the order of the source, so a field the
    source never assigns keeps whatever the buffer held before.  Addresses
    are unbounded integers; the null pointer is [None].

    Page records are obtained from [new Page]; they live in an arena
    ([pages]) and a [Page*] is an index into that arena.

    Loops.  The two [while] loops of [Allocate] follow pointers; they are
    modelled with a bound on the number of iterations ([fuel]), and the
    results below say when a bound suffices.

    Not modelled: the bytes a caller writes into a payload, and headers
    whose bytes overlap (a header is one value at its address).  [abort()],
    a read through a null pointer and an exhausted bound end an operation
    with a [fault]. *)

From Stdlib Require Import ZArith Bool Lia.
From stdpp Require Import base list.

Local Open Scope Z_scope.

(** ** Machine arithmetic *)

(** Values of [unsigned] and [size_t], and of [unsigned short]. *)
Definition wrap32 (z : Z) : Z := z mod 2 ^ 32.
Definition wrap16 (z : Z) : Z := z mod 2 ^ 16.

(** [sizeof(MetaData)] *)
Definition sizeof_MetaData : Z := 16.

(** ** Outcomes of an operation *)

(** How an operation can end without a result. *)
Inductive fault : Type :=
| NullDeref      (* a field of a null pointer is read *)
| BadPage        (* a [Page*] that [new Page] never returned *)
| Aborted        (* the source calls [abort()] *)
| OutOfFuel.     (* the loop bound given to the model was too small *)

(** A result, or a fault. *)
Inductive res (A : Type) : Type :=
| Ok (a : A)
| Err (e : fault).
Arguments Ok {A} a.
Arguments Err {A} e.

Definition bind {A B : Type} (r : res A) (k : A -> res B) : res B :=
  match r with
  | Ok a => k a
  | Err e => Err e
  end.

Notation "'do' x <- r ; k" := (bind r (fun x => k))
  (at level 10, x name, r at level 100, k at level 200).

(** Reading through a pointer that may be null. *)
Definition deref {A : Type} (p : option A) (e : fault) : res A :=
  match p with
  | Some a => Ok a
  | None => Err e
  end.

(** ** Data model *)

(** [struct MetaData]; [padding] carries no information. *)
Record MetaData : Type := mkMetaData {
  Size : Z;
  Next : option Z;
  Prev : option Z;
  pageIndex : Z;
  available : bool
}.

(** Assignments to one field of a header. *)
Definition set_Size (v : Z) (d : MetaData) : MetaData :=
  mkMetaData v (Next d) (Prev d) (pageIndex d) (available d).
Definition set_Next (v : option Z) (d : MetaData) : MetaData :=
  mkMetaData (Size d) v (Prev d) (pageIndex d) (available d).
Definition set_Prev (v : option Z) (d : MetaData) : MetaData :=
  mkMetaData (Size d) (Next d) v (pageIndex d) (available d).
Definition set_pageIndex (v : Z) (d : MetaData) : MetaData :=
  mkMetaData (Size d) (Next d) (Prev d) v (available d).
Definition set_available (v : bool) (d : MetaData) : MetaData :=
  mkMetaData (Size d) (Next d) (Prev d) (pageIndex d) v.

(** [struct Page]; [Page_Next] is the field [Next] of the source. *)
Record Page : Type := mkPage {
  Page_Next : option nat;
  memLeft : Z;
  chunk : Z;
  index : Z
}.

(** Assignments to one field of a page record. *)
Definition set_Page_Next (v : option nat) (p : Page) : Page :=
  mkPage v (memLeft p) (chunk p) (index p).
Definition set_memLeft (v : Z) (p : Page) : Page :=
  mkPage (Page_Next p) v (chunk p) (index p).

(** What a [MetaData*] read finds at each address. *)
Definition memory : Type := Z -> MetaData.

(** [reinterpret_cast<MetaData*>(a)->field = v] *)
Definition poke (a : Z) (f : MetaData -> MetaData) (h : memory) : memory :=
  fun x => if Z.eqb x a then f (h a) else h x.

(** [class VariableMemoryManager], with the process memory it writes to. *)
Record Manager : Type := mkManager {
  pageSize : Z;
  fragmentThreshold : Z;
  pageCount : Z;
  pageList : nat;
  lastPage : nat;
  bAllocate : bool;
  pages : list Page;
  mem : memory
}.

(** The manager with another memory, and with other page records. *)
Definition with_mem (h : memory) (m : Manager) : Manager :=
  mkManager (pageSize m) (fragmentThreshold m) (pageCount m) (pageList m)
            (lastPage m) (bAllocate m) (pages m) h.
Definition with_pages (ps : list Page) (m : Manager) : Manager :=
  mkManager (pageSize m) (fragmentThreshold m) (pageCount m) (pageList m)
            (lastPage m) (bAllocate m) ps (mem m).

(** Reading through a [Page*]. *)
Definition page_at (ps : list Page) (p : nat) : res Page :=
  deref (ps !! p) BadPage.

(** ** Construction and page requests *)

(** The four assignments both the constructor and [RequestPage] make to the
    header at the start of a fresh buffer; [pageIndex] is not among them. *)
Definition init_header (base : Z) (sz : Z) (h : memory) : memory :=
  let h := poke base (set_Next None) h in
  let h := poke base (set_Prev None) h in
  let h := poke base (set_Size sz) h in
  poke base (set_available true) h.

(** The constructor.  [fresh] is the answer of [new char[pageSize]]
    ([None] for [std::bad_alloc]) and [h0] the memory at that moment. *)
Definition VariableMemoryManager
    (_pageSizeInBytes _fragmentThreshold : Z) (_allocateUponNoFreeSpace : bool)
    (fresh : option Z) (h0 : memory) : res Manager :=
  do base <- deref fresh Aborted ;
  let sz := wrap32 (_pageSizeInBytes - sizeof_MetaData) in
  Ok (mkManager _pageSizeInBytes _fragmentThreshold 1 0%nat 0%nat
                _allocateUponNoFreeSpace
                [mkPage None sz base 0]
                (init_header base sz h0)).

(** [RequestPage]: the new record takes the next free slot of the arena. *)
Definition RequestPage (fresh : option Z) (m : Manager) : res Manager :=
  let p := length (pages m) in
  do base <- deref fresh Aborted ;
  let sz := wrap32 (pageSize m - sizeof_MetaData) in
  let h := init_header base sz (mem m) in
  do lp <- page_at (pages m) (lastPage m) ;
  let ps := <[lastPage m := set_Page_Next (Some p) lp]> (pages m) in
  Ok (mkManager (pageSize m) (fragmentThreshold m) (wrap32 (pageCount m + 1))
                (pageList m) p (bAllocate m)
                (ps ++ [mkPage None sz base (wrap16 (pageCount m))]) h).

(** ** Allocate *)

(** The inner [while ( data )] loop: the worst-fit scan of one page. *)
Fixpoint scan (fuel : nat) (h : memory) (size : Z)
    (data worstFitCandidate : option Z) : res (option Z) :=
  match data with
  | None => Ok worstFitCandidate
  | Some d =>
    match fuel with
    | O => Err OutOfFuel
    | S fuel' =>
      if negb (available (h d)) || (size >? Size (h d))
      then scan fuel' h size (Next (h d)) worstFitCandidate
      else
        let c :=
          match worstFitCandidate with
          | None => Some d
          | Some w => if Size (h d) >? Size (h w) then Some d else Some w
          end in
        scan fuel' h size (Next (h d)) c
    end
  end.

(** The outer [while ( p )] loop up to the point where a candidate is in
    hand: the page, its record and the candidate, or nothing. *)
Fixpoint search (fuel : nat) (m : Manager) (size : Z) (p : option nat)
    : res (option (nat * Page * Z)) :=
  match p with
  | None => Ok None
  | Some i =>
    match fuel with
    | O => Err OutOfFuel
    | S fuel' =>
      do pg <- page_at (pages m) i ;
      if size >=? memLeft pg
      then search fuel' m size (Page_Next pg)
      else
        do c <- scan fuel' (mem m) size (Some (chunk pg)) None ;
        match c with
        | None => search fuel' m size (Page_Next pg)
        | Some w => Ok (Some (i, pg, w))
        end
    end
  end.

(** The split branch: [newMetaData] is carved out of the candidate. *)
Definition split (w : Z) (size headroom : Z) (pg : Page) (h : memory) : memory :=
  let n := w + sizeof_MetaData + size in
  let h := poke n (set_Next (Next (h w))) h in
  let h := match Next (h w) with
           | Some c => poke c (set_Prev (Some n)) h
           | None => h
           end in
  let h := poke n (set_Prev (Some w)) h in
  let h := poke w (set_Next (Some n)) h in
  let h := poke w (set_Size size) h in
  let h := poke n (set_Size (wrap32 (headroom - sizeof_MetaData))) h in
  let h := poke n (set_available true) h in
  poke n (set_pageIndex (index pg)) h.

(** The body of the outer loop from [char* mem_addr] to its [return]. *)
Definition place (i : nat) (pg : Page) (w : Z) (size : Z) (m : Manager)
    : option Z * Manager :=
  let headroom := wrap32 (Size (mem m w) - size) in
  let h :=
    if headroom >? wrap32 (fragmentThreshold m + sizeof_MetaData)
    then split w size headroom pg (mem m)
    else mem m in
  let h := poke w (set_available false) h in
  let pg' := set_memLeft (wrap32 (memLeft pg - Size (h w))) pg in
  (Some (w + sizeof_MetaData), with_mem h (with_pages (<[i := pg']> (pages m)) m)).

(** The code after [RequestPage()]: the request is cut from the new page. *)
Definition carve (size : Z) (m : Manager) : res (option Z * Manager) :=
  do lp <- page_at (pages m) (lastPage m) ;
  let currMetaData := chunk lp in
  let returnPtr := currMetaData + sizeof_MetaData in
  let newMetaData := returnPtr + size in
  let h := mem m in
  let h := poke currMetaData (set_Next (Some newMetaData)) h in
  let h := poke newMetaData (set_Prev (Some currMetaData)) h in
  let h := poke newMetaData (set_Next None) h in
  let h := poke currMetaData (set_available false) h in
  let h := poke newMetaData (set_available true) h in
  let h := poke newMetaData
             (set_Size (wrap32 (Size (h currMetaData)
                                - wrap32 (size + sizeof_MetaData)))) h in
  let h := poke currMetaData (set_Size size) h in
  Ok (Some returnPtr, with_mem h m).

(** [RequestPage()] and the code after it. *)
Definition grow (fresh : option Z) (size : Z) (m : Manager)
    : res (option Z * Manager) :=
  do m' <- RequestPage fresh m ; carve size m'.

(** [Allocate].  The result is the returned pointer ([None] for [nullptr])
    and the manager afterwards. *)
Definition Allocate (fuel : nat) (fresh : option Z) (size : Z) (m : Manager)
    : res (option Z * Manager) :=
  if size >? pageSize m then Ok (None, m)
  else
    do c <- search fuel m size (Some (pageList m)) ;
    match c with
    | Some (i, pg, w) => Ok (place i pg w size m)
    | None => if negb (bAllocate m) then Err Aborted else grow fresh size m
    end.

(** ** Free *)

(** The [for] loop that walks to the parent page: at most [n] steps, and
    it stops early at the tail of the page list. *)
Fixpoint owner (n : nat) (ps : list Page) (p : nat) : res nat :=
  match n with
  | O => Ok p
  | S n' =>
    do pg <- page_at ps p ;
    match Page_Next pg with
    | None => Ok p
    | Some q => owner n' ps q
    end
  end.

(** [p->memLeft += v] *)
Definition credit (p : nat) (v : Z) (m : Manager) : res Manager :=
  do pg <- page_at (pages m) p ;
  Ok (with_pages (<[p := set_memLeft (wrap32 (memLeft pg + v)) pg]> (pages m)) m).

(** The two assignments of the forward merge: [metaData] takes over the
    block [nx], its [Next]. *)
Definition merge_next (metaData nx : Z) (h : memory) : memory :=
  let h := poke metaData
             (set_Size (wrap32 (Size (h metaData)
                        + wrap32 (Size (h nx) + sizeof_MetaData)))) h in
  poke metaData (set_Next (Next (h nx))) h.

(** The two assignments of the backward merge: [pv], the [Prev] of
    [metaData], takes over [metaData]. *)
Definition merge_prev (metaData pv : Z) (h : memory) : memory :=
  let h := poke pv
             (set_Size (wrap32 (Size (h pv)
                        + wrap32 (Size (h metaData) + sizeof_MetaData)))) h in
  poke pv (set_Next (Next (h metaData))) h.

(** [Free] *)
Definition Free (object : Z) (m : Manager) : res Manager :=
  let metaData := object - sizeof_MetaData in
  let m := with_mem (poke metaData (set_available true) (mem m)) m in
  do p <- owner (Z.to_nat (pageIndex (mem m metaData))) (pages m) (pageList m) ;
  do m <- credit p (Size (mem m metaData)) m ;
  do nx <- deref (Next (mem m metaData)) NullDeref ;
  do m <- (if available (mem m nx)
           then credit p sizeof_MetaData
                       (with_mem (merge_next metaData nx (mem m)) m)
           else Ok m) ;
  match Prev (mem m metaData) with
  | Some pv =>
    if available (mem m pv)
    then credit p sizeof_MetaData (with_mem (merge_prev metaData pv (mem m)) m)
    else Ok m
  | None => Ok m
  end.

(** ** FreeAllPages *)



(** ** MemoryDump *)

(** The lines [MemoryDump] writes to the dump file, by what they show. *)
Inductive line : Type :=
| PageLine (pageNumber : Z)
| MetaDataAddress (meta : Z)
| NextNodeAddress (next : option Z)
| PrevNodeAddress (prev : option Z)
| MemorySize (size : Z)
| Avaliability (flag : bool)
| ColumnTitles
| MemoryContent (address : Z) (byte : Z)
| BlankLine.

(** The [for] loop over the payload of a block: one line for each of the
    [left] bytes from [data + offset] on, with the address as an
    [unsigned].  [content] is what a [char] read finds at each address. *)
Fixpoint dump_content (content : Z -> Z) (data offset : Z) (left : nat)
    : list line :=
  match left with
  | O => []
  | S left' =>
    MemoryContent (wrap32 (data + offset)) (content (data + offset))
      :: dump_content content data (offset + 1) left'
  end.

(** The inner [while ( meta )] loop: six lines for the header, the payload,
    a blank line. *)
Fixpoint dump_blocks (fuel : nat) (h : memory) (content : Z -> Z)
    (meta : option Z) : res (list line) :=
  match meta with
  | None => Ok []
  | Some d =>
    match fuel with
    | O => Err OutOfFuel
    | S fuel' =>
      do rest <- dump_blocks fuel' h content (Next (h d)) ;
      Ok ([MetaDataAddress d; NextNodeAddress (Next (h d));
           PrevNodeAddress (Prev (h d)); MemorySize (Size (h d));
           Avaliability (available (h d)); ColumnTitles]
          ++ dump_content content (d + sizeof_MetaData) 0 (Z.to_nat (Size (h d)))
          ++ [BlankLine] ++ rest)
    end
  end.

(** The outer [while ( p )] loop, with its page counter. *)
Fixpoint dump_pages (fuel : nat) (m : Manager) (content : Z -> Z)
    (pageNumber : Z) (p : option nat) : res (list line) :=
  match p with
  | None => Ok []
  | Some i =>
    match fuel with
    | O => Err OutOfFuel
    | S fuel' =>
      do pg <- page_at (pages m) i ;
      do blocks <- dump_blocks fuel' (mem m) content (Some (chunk pg)) ;
      do rest <- dump_pages fuel' m content (wrap32 (pageNumber + 1))
                            (Page_Next pg) ;
      Ok (PageLine pageNumber :: blocks ++ [BlankLine] ++ rest)
    end
  end.

(** [MemoryDump]: the lines of the file, in order.  The file name and the
    message on the console are left out. *)
Definition MemoryDump (fuel : nat) (content : Z -> Z) (m : Manager)
    : res (list line) :=
  dump_pages fuel m content 0 (Some (pageList m)).

(** The page lines, the header groups and the byte lines of a dump, and how
    many lines of a kind a dump has. *)
Definition is_page (l : line) : bool :=
  match l with PageLine _ => true | _ => false end.
Definition is_header (l : line) : bool :=
  match l with MetaDataAddress _ => true | _ => false end.
Definition is_content (l : line) : bool :=
  match l with MemoryContent _ _ => true | _ => false end.
Definition count (f : line -> bool) (out : list line) : Z :=
  Z.of_nat (length (List.filter f out)).

(** ** Operation sequences *)

(** The calls a user makes, with the answer of the system allocator should
    the call ask for a page. *)
Inductive op : Type :=
| OpAllocate (fresh : option Z) (size : Z)
| OpFree (object : Z).

(** One call, and a sequence of calls, on a manager. *)
Definition step (fuel : nat) (o : op) (m : Manager) : res Manager :=
  match o with
  | OpAllocate fresh size => do r <- Allocate fuel fresh size m ; Ok (snd r)
  | OpFree object => Free object m
  end.

Fixpoint run (fuel : nat) (os : list op) (m : Manager) : res Manager :=
  match os with
  | [] => Ok m
  | o :: os' => do m' <- step fuel o m ; run fuel os' m'
  end.

(** ** Linked structure, as lists of the nodes a walk visits *)

(** Following [Next] from [a] visits exactly the headers [l] and then
    reaches the null pointer. *)
Fixpoint block_walk (h : memory) (a : option Z) (l : list Z) : Prop :=
  match l with
  | [] => a = None
  | d :: l' => a = Some d /\ block_walk h (Next (h d)) l'
  end.

(** Following [Page_Next] from [p] visits the pages [l] and arrives at [q]. *)
Fixpoint page_path (ps : list Page) (p : option nat) (l : list (nat * Page))
    (q : option nat) : Prop :=
  match l with
  | [] => p = q
  | (i, pg) :: l' =>
    p = Some i /\ ps !! i = Some pg /\ page_path ps (Page_Next pg) l' q
  end.

(** A block the scan does not filter off. *)
Definition fits (h : memory) (size : Z) (d : Z) : bool :=
  available (h d) && (size <=? Size (h d)).

(** The candidate the scan holds after the blocks [l], started with [w]. *)
Fixpoint worst (h : memory) (size : Z) (l : list Z) (w : option Z) : option Z :=
  match l with
  | [] => w
  | d :: l' =>
    if fits h size d
    then worst h size l'
           (match w with
            | None => Some d
            | Some c => if Size (h d) >? Size (h c) then Some d else Some c
            end)
    else worst h size l' w
  end.

(** Bytes in the available blocks among [l]. *)
Fixpoint free_bytes (h : memory) (l : list Z) : Z :=
  match l with
  | [] => 0
  | d :: l' => (if available (h d) then Size (h d) else 0) + free_bytes h l'
  end.

(** Bytes covered by the blocks [l], headers included. *)
Fixpoint span (h : memory) (l : list Z) : Z :=
  match l with
  | [] => 0
  | d :: l' => sizeof_MetaData + Size (h d) + span h l'
  end.

(** The page list is finite, every page on it has a finite block list, and
    [lastPage] points at a page record. *)
Definition well_linked (m : Manager) : Prop :=
  exists L,
    page_path (pages m) (Some (pageList m)) L None /\
    (forall i pg, In (i, pg) L ->
       exists bl, block_walk (mem m) (Some (chunk pg)) bl) /\
    (exists lp, pages m !! lastPage m = Some lp).

(** Why the search moves on from a page: the fast filter, or a block list
    in which nothing fits. *)
Definition passed_over (m : Manager) (size : Z) (pg : Page) : Prop :=
  memLeft pg <= size \/
  exists bl, block_walk (mem m) (Some (chunk pg)) bl /\
             forall x, In x bl -> fits (mem m) size x = false.

(** [i] is the first page on the page list whose [memLeft] exceeds [size]. *)
Definition first_roomy (m : Manager) (size : Z) (i : nat) : Prop :=
  exists skipped pg,
    page_path (pages m) (Some (pageList m)) skipped (Some i) /\
    pages m !! i = Some pg /\ size < memLeft pg /\
    forall j q, In (j, q) skipped -> memLeft q <= size.

(** ** Layout of the pages *)

(** The blocks [l] lie one after the other from [a] to [stop]: each header
    is followed by its payload and then by the next header, [Next] names
    the next header, and [Prev] points into the block before ([lo] bounds
    it from below), at its header or, after a merge, further in. *)
Fixpoint laid_out (h : memory) (lo : option Z) (a : Z) (l : list Z) (stop : Z)
    : Prop :=
  match l with
  | [] => a = stop
  | d :: l' =>
    d = a /\ 0 <= Size (h d) /\ Next (h d) = head l' /\
    match lo with
    | None => Prev (h d) = None
    | Some p => exists q, Prev (h d) = Some q /\ p <= q < d
    end /\
    laid_out h (Some d) (a + sizeof_MetaData + Size (h d)) l' stop
  end.

(** Following [Page_Next] from [p] visits the page records at [idx] and
    then reaches the null pointer. *)
Fixpoint page_chain (ps : list Page) (p : option nat) (idx : list nat) : Prop :=
  match idx with
  | [] => p = None
  | i :: idx' =>
    p = Some i /\ exists pg, ps !! i = Some pg /\ page_chain ps (Page_Next pg) idx'
  end.

(** The buffer of [psz] bytes at [base] is filled by a list of blocks. *)
Definition block_list (h : memory) (psz : Z) (base : Z) : Prop :=
  exists bl, laid_out h None base bl (base + psz).

(** Two ranges of [n] bytes, at [a] and at [b], do not overlap. *)
Definition apart (n a b : Z) : Prop := a + n <= b \/ b + n <= a.

(** [ps'] has the page records of [ps] with the same links and buffers. *)
Definition same_layout (ps ps' : list Page) : Prop :=
  length ps' = length ps /\
  forall j q, ps !! j = Some q ->
    exists q', ps' !! j = Some q' /\ Page_Next q' = Page_Next q /\ chunk q' = chunk q.

(** The state the operations are meant to keep: sizes and threshold are
    [unsigned] values with room for a header, the page list is finite and
    ends at [lastPage], every page on it is filled by a list of blocks, and
    the buffers of different pages do not overlap. *)
Definition tidy (m : Manager) : Prop :=
  sizeof_MetaData <= pageSize m < 2 ^ 32 /\
  0 <= fragmentThreshold m /\
  fragmentThreshold m + sizeof_MetaData < 2 ^ 32 /\
  exists idx,
    page_chain (pages m) (Some (pageList m)) idx /\
    last idx = Some (lastPage m) /\
    (forall i pg, In i idx -> pages m !! i = Some pg ->
       block_list (mem m) (pageSize m) (chunk pg)) /\
    (forall i j pg pg', In i idx -> In j idx -> i <> j ->
       pages m !! i = Some pg -> pages m !! j = Some pg' ->
       apart (pageSize m) (chunk pg) (chunk pg')).

(** [m'] differs from [m] in [memLeft] fields only. *)
Definition recount (m m' : Manager) : Prop :=
  pageSize m' = pageSize m /\ fragmentThreshold m' = fragmentThreshold m /\
  pageList m' = pageList m /\ lastPage m' = lastPage m /\
  mem m' = mem m /\ same_layout (pages m) (pages m').

(** Page [i] is on the page list. *)
Definition reaches (m : Manager) (i : nat) : Prop :=
  exists sk, page_path (pages m) (Some (pageList m)) sk (Some i).

(** [d] is a block of a page on the page list. *)
Definition holds (m : Manager) (d : Z) : Prop :=
  exists i pg bl,
    reaches m i /\ pages m !! i = Some pg /\
    block_walk (mem m) (Some (chunk pg)) bl /\ In d bl.

(** A block in use: a block of a page on the page list that is not
    available. *)
Definition live (m : Manager) (d : Z) : Prop :=
  holds m d /\ available (mem m d) = false.

(** A sequence of operations within the conditions under which the layout
    is kept: every request the page scan cannot place leaves room for a
    second header in a fresh page and gets a buffer that overlaps no other,
    and every [Free] is given the payload address of a block. *)
Fixpoint admissible (fuel : nat) (os : list op) (m : Manager) : Prop :=
  match os with
  | [] => True
  | OpAllocate fresh size :: os' =>
    0 <= size /\
    (search fuel m size (Some (pageList m)) = Ok None ->
       size + 2 * sizeof_MetaData <= pageSize m /\
       forall base, fresh = Some base ->
         forall j q, pages m !! j = Some q ->
                     apart (pageSize m) (chunk q) base) /\
    (forall r, Allocate fuel fresh size m = Ok r -> admissible fuel os' (snd r))
  | OpFree object :: os' =>
    holds m (object - sizeof_MetaData) /\
    (forall m', Free object m = Ok m' -> admissible fuel os' m')
  end.

(** ** Managers and operation sequences used as examples *)

(** A memory of zero bytes. *)
Definition zeroed : memory := fun _ => mkMetaData 0 None None 0 false.

(** The manager right after [VariableMemoryManager(5 * KILO_BYTE, 50)], as
    in the test driver, with the page buffer at address 4096 of a zeroed
    memory. *)
Definition TestManager : Manager :=
  mkManager 5120 50 1 0%nat 0%nat true
            [mkPage None 5104 4096 0] (init_header 4096 5104 zeroed).

(** Memory as a debug heap hands it out: every byte is 0xCD. *)
Definition uninitialised : memory :=
  fun _ => mkMetaData 3452816845 (Some 3452816845) (Some 3452816845) 52685 true.

(** The manager after four requests of 1000 bytes, the release of the first
    and the third, and a request of 2000 bytes that no block of page 0 can
    hold and that is served from a second page. *)
Definition fragmenting : list op :=
  [OpAllocate None 1000; OpAllocate None 1000; OpAllocate None 1000;
   OpAllocate None 1000; OpFree 4112; OpFree 6144;
   OpAllocate (Some 100000) 2000].

(** Three blocks of 100 bytes; the first is freed, then the second, which
    merges into the first. *)
Definition merging_backward : list op :=
  [OpAllocate None 100; OpAllocate None 100; OpAllocate None 100;
   OpFree 4112; OpFree 4228].

(** The test manager after a sequence of operations (the test manager
    itself should the sequence not complete). *)
Definition after (os : list op) : Manager :=
  match run 10 os TestManager with
  | Ok m => m
  | Err _ => TestManager
  end.


(** One request that takes the whole first block of the test manager: the
    headroom of 4 bytes is below the threshold. *)
Definition filling : list op := [OpAllocate None 5100].

(** ** Tactics *)

(** Closed comparisons and equations between evaluated terms. *)
Ltac evaluate :=
  vm_compute; repeat split; try reflexivity; try (intro; discriminate).

(** Case analysis on the address comparisons left by [poke]. *)
Ltac poke_cases :=
  unfold poke; simpl;
  repeat match goal with
         | |- context [Z.eqb ?a ?b] => destruct (Z.eqb_spec a b); try lia; simpl
         end.

(** ** Basic facts *)

(** Reading where, and elsewhere than, a field was assigned. *)
Lemma poke_eq a f h : poke a f h a = f (h a).
Proof. unfold poke. now rewrite Z.eqb_refl. Qed.

Lemma poke_ne a f h x : x <> a -> poke a f h x = h x.
Proof. unfold poke. intros Hne. destruct (Z.eqb_spec x a); congruence. Qed.

(** Reads of a memory after a sequence of [poke]s. *)
Ltac poke_simpl :=
  repeat first [ rewrite poke_eq
               | rewrite poke_ne by (assumption || congruence || lia) ];
  simpl.

Lemma sizeof_MetaData_eq : sizeof_MetaData = 16.
Proof. reflexivity. Qed.

Lemma wrap32_small z : 0 <= z < 2 ^ 32 -> wrap32 z = z.
Proof. intros Hz. unfold wrap32. now apply Z.mod_small. Qed.

(** [fits] is the negation of the filter of the scan. *)
Lemma fits_spec h size d :
  fits h size d = true <-> available (h d) = true /\ size <= Size (h d).
Proof.
  unfold fits. rewrite andb_true_iff, Z.leb_le. tauto.
Qed.

Lemma scan_filter h size d :
  negb (available (h d)) || (size >? Size (h d)) = negb (fits h size d).
Proof.
  unfold fits. rewrite negb_andb. f_equal.
  rewrite Z.gtb_ltb, Z.ltb_antisym. reflexivity.
Qed.

(** ** The scan computes [worst] over the walk *)

(** With a bound of at least the length of the walk, the scan returns the
    candidate [worst] computes; and a scan that returns has walked a finite
    list. *)
Lemma scan_complete h size l : forall fuel a w,
  block_walk h a l -> (length l <= fuel)%nat ->
  scan fuel h size a w = Ok (worst h size l w).
Proof.
  induction l as [|d l IH]; intros fuel a w Hw Hlen; simpl in Hw.
  - subst a. destruct fuel; reflexivity.
  - destruct Hw as [-> Hw]. destruct fuel as [|fuel]; simpl in Hlen; [lia|].
    simpl. rewrite scan_filter.
    destruct (fits h size d); simpl; apply IH; auto; lia.
Qed.

Lemma scan_sound h size : forall fuel a w r,
  scan fuel h size a w = Ok r ->
  exists l, block_walk h a l /\ (length l <= fuel)%nat /\ r = worst h size l w.
Proof.
  induction fuel as [|fuel IH]; intros a w r Hs.
  - destruct a; simpl in Hs; [discriminate|].
    exists []. simpl. repeat split; auto. congruence.
  - destruct a as [d|]; simpl in Hs.
    + rewrite scan_filter in Hs.
      destruct (fits h size d) eqn:Hf; simpl in Hs;
        apply IH in Hs; destruct Hs as (l & Hw & Hlen & ->);
        exists (d :: l); simpl; rewrite Hf; repeat split; auto; lia.
    + exists []. simpl. repeat split; auto; [lia | congruence].
Qed.

(** [worst] started from a candidate keeps one, and only trades it for a
    strictly larger block. *)
Lemma worst_from_some h size l : forall c,
  exists b, worst h size l (Some c) = Some b /\
    ((b = c /\ forall x, In x l -> fits h size x = true -> Size (h x) <= Size (h c))
     \/ (exists l1 l2, l = l1 ++ b :: l2 /\ fits h size b = true /\
           Size (h c) < Size (h b) /\
           (forall x, In x l1 -> fits h size x = true -> Size (h x) < Size (h b)) /\
           (forall x, In x l2 -> fits h size x = true -> Size (h x) <= Size (h b)))).
Proof.
  induction l as [|d l IH]; intros c; simpl.
  - exists c. split; auto. left. split; auto. intros x [].
  - destruct (fits h size d) eqn:Hf.
    + destruct (Z.gtb_spec (Size (h d)) (Size (h c))) as [Hgt|Hle].
      * destruct (IH d) as (b & Hb & [[-> Hall]|(l1 & l2 & -> & Hfb & Hlt & H1 & H2)]).
        -- exists d. split; auto. right. exists [], l. simpl.
           repeat split; auto; try lia; try (intros x []).
        -- exists b. split; auto. right. exists (d :: l1), l2. simpl.
           repeat split; auto; try lia.
           intros x [<-|Hx] Hfx; [lia | auto].
      * destruct (IH c) as (b & Hb & [[-> Hall]|(l1 & l2 & -> & Hfb & Hlt & H1 & H2)]).
        -- exists c. split; auto. left. split; auto.
           intros x [<-|Hx] Hfx; [lia | auto].
        -- exists b. split; auto. right. exists (d :: l1), l2. simpl.
           repeat split; auto.
           intros x [<-|Hx] Hfx; [lia | auto].
    + destruct (IH c) as (b & Hb & [[-> Hall]|(l1 & l2 & -> & Hfb & Hlt & H1 & H2)]).
      * exists c. split; auto. left. split; auto.
        intros x [<-|Hx] Hfx; [congruence | auto].
      * exists b. split; auto. right. exists (d :: l1), l2. simpl.
        repeat split; auto.
        intros x [<-|Hx] Hfx; [congruence | auto].
Qed.

(** Started without a candidate: nothing fits, or the result is the first
    block of maximal size among those that fit. *)
Lemma worst_none h size l :
  worst h size l None = None -> forall x, In x l -> fits h size x = false.
Proof.
  induction l as [|d l IH]; simpl; intros Hw x Hx; [destruct Hx|].
  destruct (fits h size d) eqn:Hf.
  - destruct (worst_from_some h size l d) as (b & Hb & _). congruence.
  - destruct Hx as [<-|Hx]; auto.
Qed.

(** The result is the first block of maximal size among those that fit. *)
Lemma worst_some h size l b :
  worst h size l None = Some b ->
  exists l1 l2, l = l1 ++ b :: l2 /\ fits h size b = true /\
    (forall x, In x l1 -> fits h size x = true -> Size (h x) < Size (h b)) /\
    (forall x, In x l2 -> fits h size x = true -> Size (h x) <= Size (h b)).
Proof.
  induction l as [|d l IH]; simpl; intros Hw; [discriminate|].
  destruct (fits h size d) eqn:Hf.
  - destruct (worst_from_some h size l d) as (b' & Hb & Hcase).
    rewrite Hb in Hw. injection Hw as ->.
    destruct Hcase as [[-> Hall]|(l1 & l2 & -> & Hfb & Hlt & H1 & H2)].
    + exists [], l. simpl. repeat split; auto; try (intros x []).
    + exists (d :: l1), l2. simpl. repeat split; auto.
      intros x [<-|Hx] Hfx; [lia | auto].
  - destruct (IH Hw) as (l1 & l2 & -> & Hfb & H1 & H2).
    exists (d :: l1), l2. simpl. repeat split; auto.
    intros x [<-|Hx] Hfx; [congruence | auto].
Qed.

(** ** The page search *)

(** What a search that ends with a candidate has established. *)
Lemma search_sound m size : forall fuel p i pg w,
  search fuel m size p = Ok (Some (i, pg, w)) ->
  exists skipped bl,
    page_path (pages m) p skipped (Some i) /\
    pages m !! i = Some pg /\
    (forall j q, In (j, q) skipped -> passed_over m size q) /\
    size < memLeft pg /\
    block_walk (mem m) (Some (chunk pg)) bl /\
    worst (mem m) size bl None = Some w.
Proof.
  induction fuel as [|fuel IH]; intros p i pg w Hs.
  - destruct p; simpl in Hs; discriminate.
  - destruct p as [j|]; simpl in Hs; [|discriminate].
    unfold page_at in Hs.
    destruct (pages m !! j) as [pj|] eqn:Hj; simpl in Hs; [|discriminate].
    destruct (Z.geb_spec size (memLeft pj)) as [Hge|Hlt].
    + apply IH in Hs. destruct Hs as (sk & bl & Hp & Hi & Hsk & Hroom & Hw & Hb).
      exists ((j, pj) :: sk), bl. simpl. repeat split; auto.
      intros j' q [Heq|Hin]; [|eauto].
      inversion Heq; subst. left. lia.
    + destruct (scan fuel (mem m) size (Some (chunk pj)) None) as [c|e] eqn:Hsc;
        simpl in Hs; [|discriminate].
      apply scan_sound in Hsc. destruct Hsc as (bl & Hw & _ & ->).
      destruct (worst (mem m) size bl None) as [c|] eqn:Hc.
      * inversion Hs; subst. exists [], bl. simpl. repeat split; auto.
        intros j' q [].
      * apply IH in Hs. destruct Hs as (sk & bl' & Hp & Hi & Hsk & Hroom & Hw' & Hb).
        exists ((j, pj) :: sk), bl'. simpl. repeat split; auto.
        intros j' q [Heq|Hin]; [|eauto].
        inversion Heq; subst. right. exists bl. split; auto.
        apply worst_none; auto.
Qed.

(** The candidate is available and large enough, in a page that passed the
    filter. *)
Lemma search_fits fuel m size p i pg w :
  search fuel m size p = Ok (Some (i, pg, w)) ->
  pages m !! i = Some pg /\ size < memLeft pg /\
  available (mem m w) = true /\ size <= Size (mem m w).
Proof.
  intros Hs. apply search_sound in Hs.
  destruct Hs as (sk & bl & _ & Hi & _ & Hroom & _ & Hb).
  apply worst_some in Hb. destruct Hb as (l1 & l2 & _ & Hf & _).
  apply fits_spec in Hf. tauto.
Qed.

(** ** Placement in the chosen block *)

(** The memory after the split branch: at the candidate, at the new
    header, at the old successor, and elsewhere. *)
Lemma poke_Next_self n w h :
  Next (poke n (set_Next (Next (h w))) h w) = Next (h w).
Proof.
  unfold poke. destruct (Z.eqb_spec w n) as [->|]; reflexivity.
Qed.

Lemma split_candidate w size headroom pg h :
  0 <= size ->
  (forall c, Next (h w) = Some c -> w < c) ->
  split w size headroom pg h w =
    mkMetaData size (Some (w + sizeof_MetaData + size)) (Prev (h w))
               (pageIndex (h w)) (available (h w)).
Proof.
  intros Hsize Hnext. unfold split, sizeof_MetaData in *.
  assert (Hn : Next (poke (w + 16 + size) (set_Next (Next (h w))) h w) = Next (h w)).
  { rewrite poke_ne by lia. reflexivity. }
  rewrite Hn. destruct (Next (h w)) as [c|] eqn:Hc.
  - specialize (Hnext c eq_refl). poke_cases. reflexivity.
  - poke_cases. reflexivity.
Qed.

Lemma split_new w size headroom pg h :
  0 <= size ->
  split w size headroom pg h (w + sizeof_MetaData + size) =
    mkMetaData (wrap32 (headroom - sizeof_MetaData)) (Next (h w)) (Some w)
               (index pg) true.
Proof.
  intros Hsize. unfold split, sizeof_MetaData in *.
  assert (Hn : Next (poke (w + 16 + size) (set_Next (Next (h w))) h w) = Next (h w)).
  { rewrite poke_ne by lia. reflexivity. }
  rewrite Hn. destruct (Next (h w)) as [c|] eqn:Hc; poke_cases; reflexivity.
Qed.

Lemma split_successor w size headroom pg h c :
  0 <= size ->
  Next (h w) = Some c -> w + sizeof_MetaData + size < c ->
  split w size headroom pg h c =
    set_Prev (Some (w + sizeof_MetaData + size)) (h c).
Proof.
  intros Hsize Hc Hlt. unfold split, sizeof_MetaData in *.
  assert (Hn : Next (poke (w + 16 + size) (set_Next (Next (h w))) h w) = Next (h w)).
  { rewrite poke_ne by lia. reflexivity. }
  rewrite Hn, Hc. poke_cases. reflexivity.
Qed.

Lemma split_elsewhere w size headroom pg h x :
  x <> w -> x <> w + sizeof_MetaData + size -> Next (h w) <> Some x ->
  split w size headroom pg h x = h x.
Proof.
  intros Hw Hn Hc. unfold split.
  rewrite poke_Next_self.
  destruct (Next (h w)) as [c|] eqn:Hx.
  - assert (x <> c) by congruence.
    rewrite !poke_ne by assumption. reflexivity.
  - rewrite !poke_ne by assumption. reflexivity.
Qed.

(** The memory after the placement, by the two cases of the headroom
    test. *)
Lemma place_memory i pg w size m :
  0 <= size <= Size (mem m w) -> Size (mem m w) < 2 ^ 32 ->
  0 <= fragmentThreshold m -> fragmentThreshold m + sizeof_MetaData < 2 ^ 32 ->
  (forall c, Next (mem m w) = Some c ->
             w + sizeof_MetaData + Size (mem m w) <= c) ->
  let headroom := Size (mem m w) - size in
  let n := w + sizeof_MetaData + size in
  let h' := mem (snd (place i pg w size m)) in
  (fragmentThreshold m + sizeof_MetaData < headroom ->
     h' w = mkMetaData size (Some n) (Prev (mem m w)) (pageIndex (mem m w)) false /\
     h' n = mkMetaData (headroom - sizeof_MetaData) (Next (mem m w)) (Some w)
                       (index pg) true /\
     (forall c, Next (mem m w) = Some c -> h' c = set_Prev (Some n) (mem m c)) /\
     (forall x, x <> w -> x <> n -> Next (mem m w) <> Some x -> h' x = mem m x)) /\
  (headroom <= fragmentThreshold m + sizeof_MetaData ->
     h' w = set_available false (mem m w) /\
     forall x, x <> w -> h' x = mem m x).
Proof.
  intros Hsize HS Hft Hsum Hnext headroom n h'.
  pose proof sizeof_MetaData_eq as HH.
  assert (Hhr : headroom = Size (mem m w) - size) by reflexivity.
  assert (Hnv : n = w + sizeof_MetaData + size) by reflexivity.
  unfold h', place. simpl.
  rewrite (wrap32_small (Size (mem m w) - size)) by lia.
  rewrite (wrap32_small (fragmentThreshold m + sizeof_MetaData)) by lia.
  fold headroom.
  destruct (Z.gtb_spec headroom (fragmentThreshold m + sizeof_MetaData)) as [Hsp|Hab].
  - split; [|intros; lia]. intros _.
    rewrite poke_eq, (poke_ne w _ _ n) by lia. fold n.
    rewrite split_candidate by
      (try lia; intros c Hc; specialize (Hnext c Hc); lia).
    unfold n at 2. rewrite split_new by lia.
    rewrite wrap32_small by lia. fold n.
    split; [reflexivity|]. split; [reflexivity|]. split.
    + intros c Hc. specialize (Hnext c Hc). rewrite poke_ne by lia.
      apply split_successor; auto; lia.
    + intros x Hxw Hxn Hxc. rewrite poke_ne by assumption.
      apply split_elsewhere; assumption.
  - split; [intros; lia|]. intros _. rewrite poke_eq. split; [reflexivity|].
    intros x Hx. apply poke_ne. assumption.
Qed.

(** [TestManager] is what the constructor returns. *)
Lemma TestManager_constructed :
  VariableMemoryManager 5120 50 true (Some 4096) zeroed = Ok TestManager.
Proof. reflexivity. Qed.



(** ** Worst-fit selection *)

(** C2, as stated, fails: the block chosen for a request of 2000 bytes lies
    in page 1 although page 0 is the first page with [memLeft > 2000]; page
    0 holds 3104 bytes by its count, but in blocks of 1000, 1000 and 1040. *)
Lemma selection_page_counterexample :
  exists m i pg w,
    run 10 fragmenting TestManager = Ok m /\
    search 10 m 2000 (Some (pageList m)) = Ok (Some (i, pg, w)) /\
    ~ first_roomy m 2000 i.
Proof.
  eexists. eexists. eexists. eexists.
  split; [vm_compute; reflexivity|].
  split; [vm_compute; reflexivity|].
  intros (sk & pg & Hp & Hi & Hroom & Hall).
  destruct sk as [|[j q] sk]; simpl in Hp.
  - vm_compute in Hp. discriminate.
  - destruct Hp as (Hj & Hq & _).
    vm_compute in Hj. injection Hj as <-.
    specialize (Hall 0%nat q (or_introl eq_refl)).
    vm_compute in Hq. injection Hq as <-.
    vm_compute in Hall. apply Hall. reflexivity.
Qed.

(** C2, amended.  When the page scan of [Allocate] ends with the candidate
    [w] in page [i]: every page before [i] on the page list was passed over,
    by the filter ([memLeft <= size]) or because none of its blocks is
    available with a size of at least [size]; page [i] has [memLeft > size];
    and [w] is available, of size at least [size], strictly larger than every
    fitting block before it in the page's block list and at least as large
    as every fitting block after it. *)
Theorem worst_fit_selection fuel fresh m size i pg w :
  size <= pageSize m ->
  search fuel m size (Some (pageList m)) = Ok (Some (i, pg, w)) ->
  Allocate fuel fresh size m = Ok (place i pg w size m) /\
  exists skipped before behind,
    page_path (pages m) (Some (pageList m)) skipped (Some i) /\
    pages m !! i = Some pg /\
    (forall j q, In (j, q) skipped -> passed_over m size q) /\
    size < memLeft pg /\
    block_walk (mem m) (Some (chunk pg)) (before ++ w :: behind) /\
    available (mem m w) = true /\ size <= Size (mem m w) /\
    (forall x, In x before -> available (mem m x) = true ->
               size <= Size (mem m x) -> Size (mem m x) < Size (mem m w)) /\
    (forall x, In x behind -> available (mem m x) = true ->
               size <= Size (mem m x) -> Size (mem m x) <= Size (mem m w)).
Proof.
  intros Hsize Hs. split.
  - unfold Allocate. destruct (Z.gtb_spec size (pageSize m)); [lia|].
    rewrite Hs. reflexivity.
  - apply search_sound in Hs.
    destruct Hs as (sk & bl & Hp & Hi & Hsk & Hroom & Hw & Hb).
    apply worst_some in Hb. destruct Hb as (l1 & l2 & -> & Hf & H1 & H2).
    apply fits_spec in Hf. destruct Hf as [Hav Hle].
    exists sk, l1, l2. repeat split; auto.
    + intros x Hx Hax Hsx. apply H1; auto. apply fits_spec. auto.
    + intros x Hx Hax Hsx. apply H2; auto. apply fits_spec. auto.
Qed.

Lemma worst_fit_selection_witness :
  Allocate 10 None 2000 (after fragmenting)
    = Ok (place 1 (mkPage None 5104 100000 1) 102016 2000 (after fragmenting)) /\
  exists skipped before behind,
    page_path (pages (after fragmenting))
              (Some (pageList (after fragmenting))) skipped (Some 1%nat) /\
    pages (after fragmenting) !! 1%nat = Some (mkPage None 5104 100000 1) /\
    (forall j q, In (j, q) skipped -> passed_over (after fragmenting) 2000 q) /\
    2000 < memLeft (mkPage None 5104 100000 1) /\
    block_walk (mem (after fragmenting))
               (Some (chunk (mkPage None 5104 100000 1)))
               (before ++ 102016 :: behind) /\
    available (mem (after fragmenting) 102016) = true /\
    2000 <= Size (mem (after fragmenting) 102016) /\
    (forall x, In x before -> available (mem (after fragmenting) x) = true ->
               2000 <= Size (mem (after fragmenting) x) ->
               Size (mem (after fragmenting) x)
                 < Size (mem (after fragmenting) 102016)) /\
    (forall x, In x behind -> available (mem (after fragmenting) x) = true ->
               2000 <= Size (mem (after fragmenting) x) ->
               Size (mem (after fragmenting) x)
                 <= Size (mem (after fragmenting) 102016)).
Proof.
  apply (worst_fit_selection 10 None (after fragmenting) 2000 1%nat
           (mkPage None 5104 100000 1) 102016).
  - evaluate.
  - vm_compute. reflexivity.
Defined.

(** ** Termination of the search and the result of [Allocate] *)

(** Finitely many finite walks have a common bound. *)
Lemma walks_bound h (L : list (nat * Page)) :
  (forall i pg, In (i, pg) L -> exists bl, block_walk h (Some (chunk pg)) bl) ->
  exists n, forall i pg, In (i, pg) L ->
    exists bl, block_walk h (Some (chunk pg)) bl /\ (length bl <= n)%nat.
Proof.
  induction L as [|[j q] L IH]; intros Hall.
  - exists 0%nat. intros i pg [].
  - destruct IH as [n Hn]; [intros i pg Hin; apply (Hall i pg); right; exact Hin|].
    destruct (Hall j q (or_introl eq_refl)) as [bl Hbl].
    exists (Nat.max n (length bl)). intros i pg [Heq|Hin].
    + inversion Heq; subst. exists bl. split; [assumption|lia].
    + destruct (Hn i pg Hin) as (bl' & Hw & Hlen). exists bl'. split; [assumption|lia].
Qed.

(** With a bound above the length of the page list plus the longest block
    list, the search returns. *)
Lemma search_complete m size n : forall L p fuel,
  page_path (pages m) p L None ->
  (forall i pg, In (i, pg) L ->
     exists bl, block_walk (mem m) (Some (chunk pg)) bl /\ (length bl <= n)%nat) ->
  (length L + n <= fuel)%nat ->
  exists r, search fuel m size p = Ok r.
Proof.
  induction L as [|[j q] L IH]; intros p fuel Hp Hall Hfuel; simpl in Hp.
  - subst p. exists None. destruct fuel; reflexivity.
  - destruct Hp as (-> & Hq & Hp).
    destruct fuel as [|fuel]; simpl in Hfuel; [lia|].
    assert (Hrec : exists r, search fuel m size (Page_Next q) = Ok r).
    { apply IH; [assumption| |lia].
      intros i pg Hin. apply (Hall i pg). right. exact Hin. }
    simpl. unfold page_at. rewrite Hq. simpl.
    destruct (size >=? memLeft q); [exact Hrec|].
    destruct (Hall j q (or_introl eq_refl)) as (bl & Hw & Hlen).
    rewrite (scan_complete _ _ bl) by (auto; lia). simpl.
    destruct (worst (mem m) size bl None) as [w|]; [eauto|exact Hrec].
Qed.

(** After [RequestPage], [lastPage] is the new record. *)
Lemma RequestPage_lastPage base m m' :
  RequestPage (Some base) m = Ok m' ->
  lastPage m' = length (pages m) /\
  pages m' !! lastPage m' =
    Some (mkPage None (wrap32 (pageSize m - sizeof_MetaData)) base
                 (wrap16 (pageCount m))).
Proof.
  unfold RequestPage, page_at. simpl.
  destruct (pages m !! lastPage m) as [lp|]; simpl; [|discriminate].
  intros Hm. injection Hm as <-. simpl. split; [reflexivity|].
  apply list_lookup_middle. now rewrite length_insert.
Qed.

(** C10.  With growth enabled and a system allocator that answers, on a
    manager whose page list and block lists are finite: a request of at most
    [pageSize] bytes returns a pointer that is not null, once the loop bound
    of the model is large enough; and the null pointer is returned exactly
    for requests above [pageSize], which leave the manager as it was. *)
Theorem Allocate_returns_block size m base :
  well_linked m ->
  bAllocate m = true ->
  (size <= pageSize m ->
     exists n, forall fuel, (n <= fuel)%nat ->
       exists ptr m', Allocate fuel (Some base) size m = Ok (Some ptr, m')) /\
  (forall fuel fresh m',
     Allocate fuel fresh size m = Ok (None, m') -> pageSize m < size) /\
  (pageSize m < size ->
     forall fuel fresh, Allocate fuel fresh size m = Ok (None, m)).
Proof.
  intros (L & Hpath & Hwalks & lp & Hlp) Hgrow. split; [|split].
  - intros Hsize.
    destruct (walks_bound _ _ Hwalks) as [n Hn].
    exists (length L + n)%nat. intros fuel Hfuel.
    destruct (search_complete m size n L _ fuel Hpath Hn Hfuel) as [r Hr].
    unfold Allocate. destruct (Z.gtb_spec size (pageSize m)); [lia|].
    rewrite Hr. simpl. destruct r as [[[i pg] w]|].
    + unfold place. eauto.
    + rewrite Hgrow. simpl. unfold grow.
      destruct (RequestPage (Some base) m) as [m1|e] eqn:Hreq.
      * simpl. apply RequestPage_lastPage in Hreq. destruct Hreq as [_ Hlast].
        unfold carve, page_at. rewrite Hlast. simpl. eauto.
      * exfalso. unfold RequestPage, page_at in Hreq. rewrite Hlp in Hreq.
        simpl in Hreq. discriminate.
  - intros fuel fresh m'. unfold Allocate.
    destruct (Z.gtb_spec size (pageSize m)); [intros; lia|].
    destruct (search fuel m size (Some (pageList m))) as [[[[i pg] w]|]|e];
      simpl; try discriminate.
    destruct (negb (bAllocate m)); [discriminate|]. unfold grow.
    destruct (RequestPage fresh m) as [m1|e]; simpl; [|discriminate].
    unfold carve. destruct (page_at (pages m1) (lastPage m1)); simpl; discriminate.
  - intros Hsize fuel fresh. unfold Allocate.
    destruct (Z.gtb_spec size (pageSize m)); [reflexivity|lia].
Qed.

(** The test manager has one page with one block. *)
Lemma TestManager_well_linked : well_linked TestManager.
Proof.
  exists [(0%nat, mkPage None 5104 4096 0)]. split; [|split].
  - simpl. auto.
  - intros i pg [Heq|[]]. inversion Heq; subst. exists [4096]. simpl. auto.
  - eexists. reflexivity.
Defined.

Lemma Allocate_returns_block_witness :
  (5120 <= pageSize TestManager ->
     exists n, forall fuel, (n <= fuel)%nat ->
       exists ptr m',
         Allocate fuel (Some 100000) 5120 TestManager = Ok (Some ptr, m')) /\
  (forall fuel fresh m',
     Allocate fuel fresh 5120 TestManager = Ok (None, m') ->
     pageSize TestManager < 5120) /\
  (pageSize TestManager < 5120 ->
     forall fuel fresh, Allocate fuel fresh 5120 TestManager = Ok (None, TestManager)).
Proof.
  apply (Allocate_returns_block 5120 TestManager 100000).
  - exact TestManager_well_linked.
  - reflexivity.
Defined.

(** ** Blocks laid out in a buffer *)

(** Blocks laid out from [a] to [stop] lie between the two, with sizes that
    are not negative. *)
Lemma laid_out_le h stop : forall l lo a, laid_out h lo a l stop -> a <= stop.
Proof.
  pose proof sizeof_MetaData_eq.
  induction l as [|d l IH]; simpl; intros lo a Hl.
  - lia.
  - destruct Hl as (-> & Hs & _ & _ & Hl). apply IH in Hl. lia.
Qed.

Lemma laid_out_bounds h stop : forall l lo a, laid_out h lo a l stop ->
  forall d, In d l ->
    a <= d /\ 0 <= Size (h d) /\ d + sizeof_MetaData + Size (h d) <= stop.
Proof.
  pose proof sizeof_MetaData_eq.
  induction l as [|e l IH]; simpl; intros lo a Hl d Hd; [destruct Hd|].
  destruct Hl as (-> & Hs & _ & _ & Hl). destruct Hd as [<-|Hd].
  - apply laid_out_le in Hl. lia.
  - destruct (IH _ _ Hl d Hd) as (H1 & H2 & H3). lia.
Qed.

(** The layout reads only [Size], [Next] and [Prev] of its blocks. *)
Lemma laid_out_frame h h' stop : forall l lo a,
  (forall d, In d l -> Size (h' d) = Size (h d) /\ Next (h' d) = Next (h d)
                       /\ Prev (h' d) = Prev (h d)) ->
  laid_out h lo a l stop -> laid_out h' lo a l stop.
Proof.
  induction l as [|e l IH]; simpl; intros lo a Hag Hl; [assumption|].
  destruct Hl as (-> & Hs & Hn & Hp & Hl).
  destruct (Hag a (or_introl eq_refl)) as (HS & HN & HP).
  rewrite HS, HN, HP. repeat split; auto.
Qed.

(** The bound on the first [Prev] may be lowered. *)
Lemma laid_out_lower h stop l p p' a :
  p' <= p -> laid_out h (Some p) a l stop -> laid_out h (Some p') a l stop.
Proof.
  intros Hle. destruct l as [|d l]; simpl; [auto|].
  intros (-> & Hs & Hn & (q & Hq & Hr) & Hl). repeat split; auto.
  exists q. split; [assumption|lia].
Qed.

(** A layout is a walk. *)
Lemma laid_out_walk h stop : forall l lo a,
  laid_out h lo a l stop -> block_walk h (head l) l.
Proof.
  induction l as [|e l IH]; simpl; intros lo a Hl; [reflexivity|].
  destruct Hl as (-> & Hs & Hn & _ & Hl). split; [reflexivity|].
  rewrite Hn. eapply IH; eauto.
Qed.

Lemma head_app_cons {A} (l1 : list A) x l2 l3 :
  head (l1 ++ x :: l2) = head (l1 ++ x :: l3).
Proof. destruct l1; reflexivity. Qed.

Lemma laid_out_nonempty h lo a l stop :
  a < stop -> laid_out h lo a l stop -> exists l', l = a :: l'.
Proof.
  intros Hlt Hl. destruct l as [|d l]; simpl in Hl; [lia|].
  destruct Hl as (-> & _). eauto.
Qed.

(** The successor of a block of the layout starts where its payload ends,
    and is a block of the layout. *)
Lemma laid_out_succ h stop w c : forall l lo b,
  laid_out h lo b l stop -> In w l -> Next (h w) = Some c ->
  c = w + sizeof_MetaData + Size (h w).
Proof.
  induction l as [|e l IH]; simpl; intros lo b Hl Hin Hc; [destruct Hin|].
  destruct Hl as (-> & Hs & Hnx & _ & Hl). destruct Hin as [<-|Hin].
  - rewrite Hc in Hnx. destruct l as [|e l]; [discriminate|].
    simpl in Hnx. injection Hnx as ->. simpl in Hl. destruct Hl as (-> & _).
    reflexivity.
  - eapply IH; eauto.
Qed.

Lemma laid_out_succ_in h stop w c : forall l lo b,
  laid_out h lo b l stop -> In w l -> Next (h w) = Some c -> In c l.
Proof.
  induction l as [|e l IH]; simpl; intros lo b Hl Hin Hc; [destruct Hin|].
  destruct Hl as (-> & Hs & Hnx & _ & Hl). destruct Hin as [<-|Hin].
  - rewrite Hc in Hnx. destruct l as [|e l]; [discriminate|].
    simpl in Hnx. injection Hnx as ->. right. left. reflexivity.
  - right. eapply IH; eauto.
Qed.

(** A block [w] of the list is split: [n] is inserted after it. *)
Lemma laid_out_insert h h' stop w n size : forall l1 l2 lo a,
  laid_out h lo a (l1 ++ w :: l2) stop ->
  0 <= size -> n = w + sizeof_MetaData + size ->
  size + sizeof_MetaData <= Size (h w) ->
  Size (h' w) = size -> Next (h' w) = Some n -> Prev (h' w) = Prev (h w) ->
  Size (h' n) = Size (h w) - size - sizeof_MetaData ->
  Next (h' n) = Next (h w) -> Prev (h' n) = Some w ->
  (forall c, Next (h w) = Some c -> h' c = set_Prev (Some n) (h c)) ->
  (forall x, x <> w -> x <> n -> Next (h w) <> Some x -> h' x = h x) ->
  laid_out h' lo a (l1 ++ w :: n :: l2) stop.
Proof.
  pose proof sizeof_MetaData_eq as HH.
  intros l1 l2 lo a Hl Hsize -> Hroom HwS HwN HwP HnS HnN HnP Hc Hx.
  revert lo a Hl. induction l1 as [|d l1 IH]; intros lo a Hl.
  - simpl in Hl. destruct Hl as (-> & Hs & Hnx & Hp & Hl).
    simpl. rewrite HwS, HwN, HwP, HnS, HnN, HnP.
    split; [reflexivity|]. split; [lia|]. split; [reflexivity|].
    split; [exact Hp|]. split; [reflexivity|]. split; [lia|].
    split; [exact Hnx|]. split; [exists a; split; [reflexivity|lia]|].
    replace (a + sizeof_MetaData + size + sizeof_MetaData
             + (Size (h a) - size - sizeof_MetaData))
      with (a + sizeof_MetaData + Size (h a)) by lia.
    destruct l2 as [|c l2]; [exact Hl|].
    simpl in Hl. destruct Hl as (-> & Hcs & Hcn & (q & Hq & Hqr) & Hl).
    simpl in Hnx. simpl. rewrite (Hc _ Hnx). simpl.
    split; [reflexivity|]. split; [exact Hcs|]. split; [exact Hcn|].
    split; [exists (a + sizeof_MetaData + size); split; [reflexivity|lia]|].
    eapply laid_out_frame; [|exact Hl].
    intros x Hin. destruct (laid_out_bounds _ _ _ _ _ Hl x Hin) as (Hb & _).
    rewrite Hx; [auto|lia|lia|rewrite Hnx; intros [=]; lia].
  - simpl in Hl. destruct Hl as (-> & Hs & Hnx & Hp & Hl).
    assert (Hin : In w (l1 ++ w :: l2)) by (apply in_or_app; right; left; reflexivity).
    destruct (laid_out_bounds _ _ _ _ _ Hl w Hin) as (Hb & Hws & _).
    assert (Ha : h' a = h a).
    { apply Hx; try lia. intros Hnw.
      pose proof (laid_out_succ _ _ _ _ _ _ _ Hl Hin Hnw). lia. }
    simpl. rewrite Ha.
    split; [reflexivity|]. split; [exact Hs|].
    split; [rewrite Hnx; apply head_app_cons|]. split; [exact Hp|].
    apply IH. exact Hl.
Qed.

(** A block [x] of the list absorbs its successor [y]. *)
Lemma laid_out_absorb h h' stop x y : forall l1 l2 lo a,
  laid_out h lo a (l1 ++ x :: y :: l2) stop ->
  Size (h' x) = Size (h x) + Size (h y) + sizeof_MetaData ->
  Next (h' x) = Next (h y) -> Prev (h' x) = Prev (h x) ->
  (forall z, z <> x -> In z (l1 ++ l2) -> h' z = h z) ->
  laid_out h' lo a (l1 ++ x :: l2) stop.
Proof.
  pose proof sizeof_MetaData_eq as HH.
  intros l1 l2 lo a Hl HxS HxN HxP Hz.
  revert lo a Hl. induction l1 as [|d l1 IH]; intros lo a Hl.
  - simpl in Hl.
    destruct Hl as (-> & Hs & Hnx & Hp & -> & Hys & Hyn & _ & Hl).
    simpl. rewrite HxS, HxN, HxP.
    split; [reflexivity|]. split; [lia|]. split; [exact Hyn|].
    split; [exact Hp|].
    replace (a + sizeof_MetaData
             + (Size (h a) + Size (h (a + sizeof_MetaData + Size (h a)))
                + sizeof_MetaData))
      with (a + sizeof_MetaData + Size (h a) + sizeof_MetaData
            + Size (h (a + sizeof_MetaData + Size (h a)))) by lia.
    eapply laid_out_lower; [|eapply laid_out_frame; [|exact Hl]]; [lia|].
    intros z Hin. destruct (laid_out_bounds _ _ _ _ _ Hl z Hin) as (Hb & _).
    rewrite Hz; [auto|lia|exact Hin].
  - simpl in Hl. destruct Hl as (-> & Hs & Hnx & Hp & Hl).
    assert (Hin : In x (l1 ++ x :: y :: l2)) by (apply in_or_app; right; left; reflexivity).
    destruct (laid_out_bounds _ _ _ _ _ Hl x Hin) as (Hb & _).
    assert (Ha : h' a = h a).
    { apply Hz; [lia|]. left. reflexivity. }
    simpl. rewrite Ha.
    split; [reflexivity|]. split; [exact Hs|].
    split; [rewrite Hnx; apply head_app_cons|]. split; [exact Hp|].
    apply IH; [|exact Hl].
    intros z Hzx Hzin. apply Hz; [exact Hzx|]. right. exact Hzin.
Qed.

(** ** Page lists *)

(** [Next] determines the walk. *)
Lemma block_walk_unique h : forall l l' a,
  block_walk h a l -> block_walk h a l' -> l = l'.
Proof.
  induction l as [|d l IH]; intros [|d' l'] a; simpl; try congruence.
  - intros -> [? _]. discriminate.
  - intros [-> _] ?. discriminate.
  - intros [-> Hl] [[= <-] Hl']. f_equal. eapply IH; eauto.
Qed.

(** Page records that keep links and buffers: a preorder, entered by an
    assignment to [memLeft], that keeps page lists in place. *)
Lemma same_layout_refl ps : same_layout ps ps.
Proof. split; [reflexivity|]. intros j q Hq. exists q. auto. Qed.

Lemma same_layout_trans ps1 ps2 ps3 :
  same_layout ps1 ps2 -> same_layout ps2 ps3 -> same_layout ps1 ps3.
Proof.
  intros [Hl1 H1] [Hl2 H2]. split; [congruence|].
  intros j q Hq. destruct (H1 j q Hq) as (q' & Hq' & Hn & Hc).
  destruct (H2 j q' Hq') as (q'' & Hq'' & Hn' & Hc').
  exists q''. repeat split; congruence.
Qed.

Lemma same_layout_memLeft ps i pg v :
  ps !! i = Some pg -> same_layout ps (<[i := set_memLeft v pg]> ps).
Proof.
  intros Hi. split; [apply length_insert|].
  intros j q Hq. destruct (Nat.eq_dec i j) as [<-|Hne].
  - rewrite list_lookup_insert_eq by (eapply lookup_lt_Some; eauto).
    assert (q = pg) by congruence. subst q. eexists. split; [reflexivity|]. auto.
  - rewrite list_lookup_insert_ne by assumption. exists q. auto.
Qed.

Lemma same_layout_back ps ps' j q' :
  same_layout ps ps' -> ps' !! j = Some q' ->
  exists q, ps !! j = Some q /\ Page_Next q' = Page_Next q /\ chunk q' = chunk q.
Proof.
  intros [Hlen Hfw] Hq'.
  assert (Hlt : (j < length ps)%nat).
  { rewrite <- Hlen. eapply lookup_lt_Some; eauto. }
  apply lookup_lt_is_Some_2 in Hlt. destruct Hlt as [q Hq].
  destruct (Hfw j q Hq) as (q'' & Hq'' & Hn & Hc).
  exists q. split; [assumption|]. split; congruence.
Qed.

Lemma page_chain_same_layout ps ps' : same_layout ps ps' ->
  forall idx p, page_chain ps p idx -> page_chain ps' p idx.
Proof.
  intros [_ Hfw]. induction idx as [|i idx IH]; simpl; intros p Hp; [assumption|].
  destruct Hp as (-> & pg & Hpg & Hp). split; [reflexivity|].
  destruct (Hfw i pg Hpg) as (q' & Hq' & Hn & _).
  exists q'. split; [assumption|]. rewrite Hn. auto.
Qed.

(** Paths and chains over the same page list visit the same records. *)
Lemma page_path_chain ps i : forall sk p idx,
  page_path ps p sk (Some i) -> page_chain ps p idx -> In i idx.
Proof.
  induction sk as [|[j q] sk IH]; simpl; intros p idx Hp Hc.
  - subst p. destruct idx as [|k idx]; simpl in Hc; [discriminate|].
    destruct Hc as ([= ->] & _). left. reflexivity.
  - destruct Hp as (-> & Hq & Hp).
    destruct idx as [|k idx]; simpl in Hc; [discriminate|].
    destruct Hc as ([= ->] & pg & Hpg & Hc).
    assert (pg = q) by congruence. subst pg. right. eapply IH; eauto.
Qed.

Lemma page_chain_path ps : forall idx p,
  page_chain ps p idx ->
  exists L, page_path ps p L None /\
            forall i pg, In (i, pg) L -> In i idx /\ ps !! i = Some pg.
Proof.
  induction idx as [|i idx IH]; simpl; intros p Hc.
  - exists []. simpl. split; [assumption|]. intros i pg [].
  - destruct Hc as (-> & pg & Hpg & Hc). destruct (IH _ Hc) as (L & HL & Hin).
    exists ((i, pg) :: L). simpl. split; [auto|].
    intros j q [[= <- <-]|Hj]; [auto|]. destruct (Hin j q Hj). auto.
Qed.

Lemma page_chain_valid ps : forall idx p i,
  page_chain ps p idx -> In i idx -> exists pg, ps !! i = Some pg.
Proof.
  induction idx as [|k idx IH]; simpl; intros p i Hc Hin; [destruct Hin|].
  destruct Hc as (-> & pg & Hpg & Hc). destruct Hin as [<-|Hin]; eauto.
Qed.

(** A tidy manager has finite lists. *)
Lemma tidy_well_linked m : tidy m -> well_linked m.
Proof.
  intros (Hps & _ & _ & idx & Hc & Hlast & Hbl & _).
  destruct (page_chain_path _ _ _ Hc) as (L & HL & Hin).
  exists L. split; [assumption|]. split.
  - intros i pg Hi. destruct (Hin i pg Hi) as [Hidx Hpg].
    destruct (Hbl i pg Hidx Hpg) as (bl & Hlo).
    exists bl. pose proof (laid_out_walk _ _ _ _ _ Hlo) as Hw.
    destruct bl as [|b bl]; simpl in Hlo.
    + pose proof sizeof_MetaData_eq. lia.
    + destruct Hlo as (-> & _). exact Hw.
  - assert (Hl : In (lastPage m) idx).
    { clear - Hlast. induction idx as [|k idx IH]; [discriminate|].
      destruct idx as [|k' idx]; [injection Hlast as ->; left; reflexivity|].
      right. apply IH. exact Hlast. }
    eapply page_chain_valid; eauto.
Qed.

(** On a tidy manager the walk over a page of the page list is the layout
    of that page. *)
Lemma tidy_laid_out m i pg bl :
  tidy m -> reaches m i -> pages m !! i = Some pg ->
  block_walk (mem m) (Some (chunk pg)) bl ->
  laid_out (mem m) None (chunk pg) bl (chunk pg + pageSize m).
Proof.
  pose proof sizeof_MetaData_eq as HH.
  intros Ht [sk Hsk] Hi Hw.
  pose proof Ht as (Hpsz & _ & _ & idx & Hc & _ & Hbl & _).
  assert (Hiidx : In i idx) by (eapply page_path_chain; eauto).
  destruct (Hbl i pg Hiidx Hi) as (bl0 & Hlo).
  assert (bl0 = bl).
  { assert (Hlt : chunk pg < chunk pg + pageSize m) by lia.
    destruct (laid_out_nonempty _ _ _ _ _ Hlt Hlo) as (l' & ->).
    pose proof (laid_out_walk _ _ _ _ _ Hlo) as Hw0. simpl head in Hw0.
    eapply block_walk_unique; eauto. }
  subst bl0. exact Hlo.
Qed.

(** The layout does not read [memLeft]; and it is kept by a change of
    memory confined to one buffer that leaves that buffer laid out. *)
Lemma tidy_recount m m' : recount m m' -> tidy m -> tidy m'.
Proof.
  intros (Hps & Hft & Hpl & Hlp & Hm & Hl) (Hpsz & Hft0 & Hsum & idx & Hc & Hlast & Hbl & Hap).
  unfold tidy. rewrite Hps, Hft, Hpl, Hlp, Hm.
  split; [assumption|]. split; [assumption|]. split; [assumption|].
  exists idx. split; [eapply page_chain_same_layout; eauto|].
  split; [assumption|]. split.
  - intros j q' Hj Hq'.
    destruct (same_layout_back _ _ _ _ Hl Hq') as (q & Hq & _ & ->). eauto.
  - intros j k q q' Hj Hk Hne Hq Hq'.
    destruct (same_layout_back _ _ _ _ Hl Hq) as (r & Hr & _ & ->).
    destruct (same_layout_back _ _ _ _ Hl Hq') as (r' & Hr' & _ & ->).
    exact (Hap j k r r' Hj Hk Hne Hr Hr').
Qed.

Lemma tidy_with_mem m h' i pg :
  tidy m -> reaches m i -> pages m !! i = Some pg ->
  block_list h' (pageSize m) (chunk pg) ->
  (forall x, x < chunk pg \/ chunk pg + pageSize m <= x -> h' x = mem m x) ->
  tidy (with_mem h' m).
Proof.
  pose proof sizeof_MetaData_eq as HH.
  intros (Hpsz & Hft0 & Hsum & idx & Hc & Hlast & Hbl & Hap) [sk Hsk] Hi Hown Hloc.
  assert (Hiidx : In i idx) by (eapply page_path_chain; eauto).
  unfold tidy. simpl.
  split; [assumption|]. split; [assumption|]. split; [assumption|].
  exists idx. split; [assumption|]. split; [assumption|]. split; [|assumption].
  intros j q Hj Hq. destruct (Nat.eq_dec j i) as [->|Hne].
  - assert (q = pg) by congruence. subst q. exact Hown.
  - destruct (Hbl j q Hj Hq) as (blq & Hloq). exists blq.
    eapply laid_out_frame; [|exact Hloq].
    intros d Hd. destruct (laid_out_bounds _ _ _ _ _ Hloq d Hd) as (? & ? & ?).
    pose proof (Hap j i q pg Hj Hiidx Hne Hq Hi) as Hapart.
    unfold apart in Hapart. rewrite Hloc by lia. auto.
Qed.

(** A block of a tidy manager sits in the layout of its page. *)
Lemma tidy_holds m d :
  tidy m -> holds m d ->
  exists i pg l1 l2,
    reaches m i /\ pages m !! i = Some pg /\
    laid_out (mem m) None (chunk pg) (l1 ++ d :: l2) (chunk pg + pageSize m).
Proof.
  intros Ht (i & pg & bl & Hr & Hi & Hw & Hin).
  pose proof (tidy_laid_out _ _ _ _ Ht Hr Hi Hw) as Hlo.
  apply in_split in Hin. destruct Hin as (l1 & l2 & ->).
  exists i, pg, l1, l2. auto.
Qed.

(** The candidate of the search is a block of a page on the page list. *)
Lemma search_reaches fuel m size i pg w :
  search fuel m size (Some (pageList m)) = Ok (Some (i, pg, w)) ->
  reaches m i /\ pages m !! i = Some pg /\ holds m w.
Proof.
  intros Hs. apply search_sound in Hs.
  destruct Hs as (sk & bl & Hp & Hi & _ & _ & Hw & Hb).
  apply worst_some in Hb. destruct Hb as (l1 & l2 & -> & _).
  assert (Hr : reaches m i) by (exists sk; exact Hp).
  split; [exact Hr|]. split; [exact Hi|].
  exists i, pg, (l1 ++ w :: l2). repeat split; auto.
  apply in_or_app. right. left. reflexivity.
Qed.

(** ** Placement keeps the layout *)

(** Page-scan placement keeps the layout. *)
Theorem place_tidy fuel m size i pg w :
  tidy m -> 0 <= size ->
  search fuel m size (Some (pageList m)) = Ok (Some (i, pg, w)) ->
  tidy (snd (place i pg w size m)).
Proof.
  pose proof sizeof_MetaData_eq as HH.
  intros Ht Hsize Hs.
  pose proof Ht as (Hps & Hft & Hsum & _).
  destruct (search_reaches _ _ _ _ _ _ Hs) as (Hr & Hi & _).
  destruct (search_fits _ _ _ _ _ _ _ Hs) as (_ & _ & _ & Hle).
  apply search_sound in Hs.
  destruct Hs as (sk & bl & _ & _ & _ & _ & Hwalk & Hworst).
  apply worst_some in Hworst. destruct Hworst as (l1 & l2 & -> & _).
  pose proof (tidy_laid_out _ _ _ _ Ht Hr Hi Hwalk) as Hlo.
  assert (Hwin : In w (l1 ++ w :: l2)) by (apply in_or_app; right; left; reflexivity).
  destruct (laid_out_bounds _ _ _ _ _ Hlo w Hwin) as (Hwlo & Hws & Hwhi).
  assert (Hsucc : forall c, Next (mem m w) = Some c ->
                            c = w + sizeof_MetaData + Size (mem m w)).
  { intros c Hc. eapply laid_out_succ; eauto. }
  destruct (place_memory i pg w size m) as [Hsplit Habsorb];
    [lia|lia|lia|lia|intros c Hc; rewrite (Hsucc c Hc); lia|].
  set (m' := snd (place i pg w size m)) in *.
  apply (tidy_recount (with_mem (mem m') m)).
  { unfold recount, m', place. simpl. do 5 (split; [reflexivity|]).
    apply same_layout_memLeft. assumption. }
  apply (tidy_with_mem m (mem m') i pg Ht Hr Hi).
  - destruct (Z.lt_ge_cases (fragmentThreshold m + sizeof_MetaData)
                            (Size (mem m w) - size)) as [Hsp|Hab].
    + destruct (Hsplit Hsp) as (Hw' & Hn' & Hc' & Hx').
      exists (l1 ++ w :: (w + sizeof_MetaData + size) :: l2).
      eapply laid_out_insert with (size := size); eauto; try lia;
        try (rewrite Hw'; reflexivity); try (rewrite Hn'; reflexivity).
    + destruct (Habsorb ltac:(lia)) as (Hw' & Hx').
      exists (l1 ++ w :: l2). eapply laid_out_frame; [|exact Hlo].
      intros d _. destruct (Z.eq_dec d w) as [->|Hd].
      * rewrite Hw'. auto.
      * rewrite Hx' by assumption. auto.
  - intros x Hx.
    destruct (Z.lt_ge_cases (fragmentThreshold m + sizeof_MetaData)
                            (Size (mem m w) - size)) as [Hsp|Hab].
    + destruct (Hsplit Hsp) as (_ & _ & _ & Hx'). apply Hx'; try lia.
      intros Hc. pose proof (laid_out_succ_in _ _ _ _ _ _ _ Hlo Hwin Hc) as Hcin.
      destruct (laid_out_bounds _ _ _ _ _ Hlo _ Hcin) as (? & ? & ?). lia.
    + destruct (Habsorb ltac:(lia)) as (_ & Hx'). apply Hx'. lia.
Qed.

(** ** The growth path keeps the layout, with room and a fresh buffer *)

(** When the search finds nothing and growth is enabled, [Allocate] is
    [grow]; its effect on a manager whose [lastPage] is a page record. *)
Lemma Allocate_grow fuel fresh size m :
  size <= pageSize m -> bAllocate m = true ->
  search fuel m size (Some (pageList m)) = Ok None ->
  Allocate fuel fresh size m = grow fresh size m.
Proof.
  intros Hsize Hb Hs. unfold Allocate, grow.
  destruct (Z.gtb_spec size (pageSize m)); [lia|].
  rewrite Hs. simpl. rewrite Hb. reflexivity.
Qed.

Lemma grow_effect base size m lp :
  pages m !! lastPage m = Some lp -> 0 <= size ->
  let n := base + sizeof_MetaData + size in
  let sz := wrap32 (pageSize m - sizeof_MetaData) in
  exists m',
    grow (Some base) size m = Ok (Some (base + sizeof_MetaData), m') /\
    pageSize m' = pageSize m /\
    fragmentThreshold m' = fragmentThreshold m /\
    pageList m' = pageList m /\
    lastPage m' = length (pages m) /\
    pages m' = <[lastPage m := set_Page_Next (Some (length (pages m))) lp]> (pages m)
               ++ [mkPage None sz base (wrap16 (pageCount m))] /\
    mem m' base = mkMetaData size (Some n) None (pageIndex (mem m base)) false /\
    mem m' n = mkMetaData (wrap32 (sz - wrap32 (size + sizeof_MetaData))) None
                          (Some base) (pageIndex (mem m n)) true /\
    forall x, x <> base -> x <> n -> mem m' x = mem m x.
Proof.
  pose proof sizeof_MetaData_eq as HH.
  intros Hlp Hsize n sz. unfold grow, RequestPage, page_at. rewrite Hlp. simpl.
  unfold carve, page_at. simpl.
  rewrite list_lookup_middle by (rewrite length_insert; reflexivity). simpl.
  eexists. split; [reflexivity|]. simpl.
  assert (Hn : n <> base) by (unfold n; lia). fold n. fold sz.
  repeat split.
  - unfold init_header. poke_simpl. reflexivity.
  - unfold init_header. poke_simpl. reflexivity.
  - intros x Hxb Hxn. unfold init_header. poke_simpl. reflexivity.
Qed.

(** The last record of a page list has no successor; linking a new record
    behind it extends the list by that record. *)
Lemma page_chain_last ps : forall idx p k,
  page_chain ps p idx -> last idx = Some k ->
  exists pg, ps !! k = Some pg /\ Page_Next pg = None.
Proof.
  induction idx as [|i idx IH]; simpl; intros p k Hc Hl; [discriminate|].
  destruct Hc as (-> & pg & Hpg & Hc). destruct idx as [|j idx].
  - injection Hl as <-. simpl in Hc. eauto.
  - eapply IH; eauto.
Qed.

Lemma last_In {A} (l : list A) x : last l = Some x -> In x l.
Proof.
  induction l as [|a l IH]; [discriminate|].
  destruct l as [|b l]; [intros [= ->]; left; reflexivity|].
  intros Hl. right. apply IH. exact Hl.
Qed.

Lemma page_chain_extend ps k lp new : forall idx p,
  page_chain ps p idx -> last idx = Some k ->
  ps !! k = Some lp -> Page_Next new = None ->
  page_chain (<[k := set_Page_Next (Some (length ps)) lp]> ps ++ [new]) p
             (idx ++ [length ps]).
Proof.
  intros idx p Hc Hl Hk Hnew.
  destruct (page_chain_last _ _ _ _ Hc Hl) as (lp' & Hlp' & Hnone).
  assert (lp' = lp) by congruence. subst lp'.
  assert (Hklt : (k < length ps)%nat) by (eapply lookup_lt_Some; eauto).
  revert p Hc Hl. induction idx as [|i idx IH]; intros p Hc Hl; [discriminate|].
  simpl in Hc. destruct Hc as (-> & pg & Hpg & Hc).
  assert (Hilt : (i < length ps)%nat) by (eapply lookup_lt_Some; eauto).
  simpl. split; [reflexivity|]. destruct idx as [|j idx].
  - injection Hl as ->. assert (pg = lp) by congruence. subst pg.
    exists (set_Page_Next (Some (length ps)) lp). split.
    + rewrite lookup_app_l by (rewrite length_insert; assumption).
      apply list_lookup_insert_eq. assumption.
    + simpl. split; [reflexivity|]. exists new. split; [|assumption].
      apply list_lookup_middle. rewrite length_insert. reflexivity.
  - assert (Hik : k <> i).
    { intros ->. assert (pg = lp) by congruence. subst pg.
      simpl in Hc. destruct Hc as [Hc _]. congruence. }
    exists pg. split.
    + rewrite lookup_app_l by (rewrite length_insert; assumption).
      rewrite list_lookup_insert_ne by assumption. assumption.
    + apply IH; assumption.
Qed.

(** A request served from a new page keeps the layout, when it leaves room
    for the second header and the new buffer overlaps no other. *)
Theorem grow_tidy base size m m' ptr :
  tidy m -> 0 <= size ->
  size + 2 * sizeof_MetaData <= pageSize m ->
  (forall j q, pages m !! j = Some q -> apart (pageSize m) (chunk q) base) ->
  grow (Some base) size m = Ok (ptr, m') ->
  tidy m'.
Proof.
  pose proof sizeof_MetaData_eq as HH.
  intros (Hps & Hft & Hsum & idx & Hchain & Hlast & Hbl & Hapart)
         Hsize Hfit Hfresh Hg.
  destruct (page_chain_valid _ _ _ _ Hchain (last_In _ _ Hlast)) as [lp Hlp].
  destruct (grow_effect base size m lp Hlp Hsize)
    as (m2 & Hg2 & Hpsz & Hftm & Hpl & Hlp2 & Hpages & Hb & Hn & Hx).
  rewrite Hg in Hg2. injection Hg2 as -> <-.
  set (n := base + sizeof_MetaData + size) in *.
  set (p := length (pages m)) in *.
  assert (Hold : forall j q', (j < p)%nat -> pages m' !! j = Some q' ->
            exists q, pages m !! j = Some q /\ chunk q' = chunk q).
  { intros j q' Hj Hq'. rewrite Hpages in Hq'.
    rewrite lookup_app_l in Hq' by (rewrite length_insert; assumption).
    destruct (Nat.eq_dec (lastPage m) j) as [<-|Hne].
    - rewrite list_lookup_insert_eq in Hq' by assumption.
      injection Hq' as <-. exists lp. auto.
    - rewrite list_lookup_insert_ne in Hq' by assumption. exists q'. auto. }
  assert (Hnew : forall q', pages m' !! p = Some q' -> chunk q' = base).
  { intros q' Hq'. rewrite Hpages in Hq'.
    rewrite list_lookup_middle in Hq' by (rewrite length_insert; reflexivity).
    injection Hq' as <-. reflexivity. }
  assert (Hidx : forall j, In j idx -> (j < p)%nat).
  { intros j Hj. destruct (page_chain_valid _ _ _ _ Hchain Hj) as [q Hq].
    eapply lookup_lt_Some; eauto. }
  unfold tidy. rewrite Hpsz, Hftm.
  split; [exact Hps|]. split; [exact Hft|]. split; [exact Hsum|].
  exists (idx ++ [p]). split; [|split; [|split]].
  - rewrite Hpl, Hpages. apply page_chain_extend; auto.
  - rewrite last_snoc. congruence.
  - intros j q' Hj Hq'. apply in_app_or in Hj. destruct Hj as [Hj|[<-|[]]].
    + destruct (Hold j q' (Hidx j Hj) Hq') as (q & Hq & ->).
      destruct (Hbl j q Hj Hq) as (bl & Hlo). exists bl.
      eapply laid_out_frame; [|exact Hlo].
      intros d Hd. destruct (laid_out_bounds _ _ _ _ _ Hlo d Hd) as (? & ? & ?).
      pose proof (Hfresh j q Hq) as Hap. unfold apart in Hap.
      rewrite Hx by (unfold n; lia). auto.
    + rewrite (Hnew q' Hq'). exists [base; n]. simpl.
      rewrite Hb, Hn. simpl.
      rewrite (wrap32_small (pageSize m - sizeof_MetaData)) by lia.
      rewrite (wrap32_small (size + sizeof_MetaData)) by lia.
      rewrite wrap32_small by lia.
      repeat split; try reflexivity; try lia.
      exists base. split; [reflexivity|unfold n; lia].
  - intros j k q q' Hj Hk Hne Hq Hq'.
    apply in_app_or in Hj. apply in_app_or in Hk.
    destruct Hj as [Hj|[<-|[]]]; destruct Hk as [Hk|[<-|[]]].
    + destruct (Hold j q (Hidx j Hj) Hq) as (r & Hr & ->).
      destruct (Hold k q' (Hidx k Hk) Hq') as (r' & Hr' & ->).
      exact (Hapart j k r r' Hj Hk Hne Hr Hr').
    + destruct (Hold j q (Hidx j Hj) Hq) as (r & Hr & ->).
      rewrite (Hnew q' Hq'). apply Hfresh with j. assumption.
    + destruct (Hold k q' (Hidx k Hk) Hq') as (r' & Hr' & ->).
      rewrite (Hnew q Hq). pose proof (Hfresh k r' Hr') as Hap.
      unfold apart in *. lia.
    + congruence.
Qed.

(** ** Free keeps the layout *)

(** [Free] reads [metaData->Next->available] without testing
    [metaData->Next]: whenever the freed block is the last of its list, the
    operation does not complete. *)
Lemma Free_last_block object m :
  Next (mem m (object - sizeof_MetaData)) = None ->
  forall m', Free object m <> Ok m'.
Proof.
  intros Hlast m'. unfold Free. simpl.
  set (md := object - sizeof_MetaData) in *.
  destruct (owner _ _ _) as [p|e]; simpl; [|discriminate].
  unfold credit at 1. simpl.
  destruct (page_at (pages m) p) as [pg|e]; simpl; [|discriminate].
  rewrite poke_eq. simpl. rewrite Hlast. simpl. discriminate.
Qed.

(** [credit] changes [memLeft] only. *)
Lemma recount_refl m : recount m m.
Proof. unfold recount. do 5 (split; [reflexivity|]). apply same_layout_refl. Qed.

Lemma credit_recount p v m m' : credit p v m = Ok m' -> recount m m'.
Proof.
  unfold credit, page_at. destruct (pages m !! p) as [pg|] eqn:Hp; simpl; [|discriminate].
  intros [= <-]. unfold recount. simpl. do 5 (split; [reflexivity|]).
  apply same_layout_memLeft. assumption.
Qed.

(** What [Free] does to memory, and that it changes nothing else but
    [memLeft] fields. *)
Lemma Free_effect object m m' :
  Free object m = Ok m' ->
  let md := object - sizeof_MetaData in
  let h1 := poke md (set_available true) (mem m) in
  exists nx,
    Next (mem m md) = Some nx /\
    let h2 := if available (h1 nx) then merge_next md nx h1 else h1 in
    let h3 := match Prev (h2 md) with
              | Some pv => if available (h2 pv) then merge_prev md pv h2 else h2
              | None => h2
              end in
    recount (with_mem h3 m) m'.
Proof.
  intros HF md h1. unfold Free in HF. fold md in HF. fold h1 in HF. simpl in HF.
  destruct (owner _ _ _) as [p|e]; simpl in HF; [|discriminate].
  destruct (credit p _ _) as [m2|e] eqn:Hc1; simpl in HF; [|discriminate].
  apply credit_recount in Hc1.
  destruct Hc1 as (Hps1 & Hft1 & Hpl1 & Hlp1 & Hm1 & Hl1). simpl in *.
  rewrite Hm1 in HF.
  assert (Hnx : Next (h1 md) = Next (mem m md)).
  { unfold h1. rewrite poke_eq. reflexivity. }
  rewrite Hnx in HF.
  destruct (Next (mem m md)) as [nx|]; simpl in HF; [|discriminate].
  exists nx. split; [reflexivity|]. simpl.
  destruct (available (h1 nx)).
  - destruct (credit p sizeof_MetaData _) as [m3|e] eqn:Hc2; simpl in HF; [|discriminate].
    apply credit_recount in Hc2.
    destruct Hc2 as (Hps2 & Hft2 & Hpl2 & Hlp2 & Hm2 & Hl2). simpl in *.
    rewrite Hm2 in HF.
    destruct (Prev (merge_next md nx h1 md)) as [pv|].
    + destruct (available (merge_next md nx h1 pv)).
      * apply credit_recount in HF.
        destruct HF as (Hps3 & Hft3 & Hpl3 & Hlp3 & Hm3 & Hl3). simpl in *.
        unfold recount. simpl. do 5 (split; [congruence|]).
        eapply same_layout_trans; [exact Hl1|].
        eapply same_layout_trans; [exact Hl2|exact Hl3].
      * injection HF as <-. unfold recount. simpl. do 5 (split; [congruence|]).
        eapply same_layout_trans; eauto.
    + injection HF as <-. unfold recount. simpl. do 5 (split; [congruence|]).
      eapply same_layout_trans; eauto.
  - simpl in HF. rewrite Hm1 in HF. destruct (Prev (h1 md)) as [pv|].
    + destruct (available (h1 pv)).
      * apply credit_recount in HF.
        destruct HF as (Hps3 & Hft3 & Hpl3 & Hlp3 & Hm3 & Hl3). simpl in *.
        unfold recount. simpl. do 5 (split; [congruence|]).
        eapply same_layout_trans; eauto.
      * injection HF as <-. unfold recount. simpl. do 5 (split; [congruence|]).
        assumption.
    + injection HF as <-. unfold recount. simpl. do 5 (split; [congruence|]).
      assumption.
Qed.

(** Around a block [x] of a layout: its [Next], the blocks before and
    after it, its [Prev]. *)
Lemma laid_out_next h stop x : forall l1 l2 lo a,
  laid_out h lo a (l1 ++ x :: l2) stop -> Next (h x) = head l2.
Proof.
  induction l1 as [|d l1 IH]; simpl; intros l2 lo a Hl.
  - tauto.
  - destruct Hl as (_ & _ & _ & _ & Hl). eauto.
Qed.

Lemma laid_out_order h stop x : forall l1 l2 lo a,
  laid_out h lo a (l1 ++ x :: l2) stop ->
  (forall d, In d l1 -> d + sizeof_MetaData + Size (h d) <= x) /\
  (forall d, In d l2 -> x + sizeof_MetaData + Size (h x) <= d).
Proof.
  pose proof sizeof_MetaData_eq as HH.
  induction l1 as [|e l1 IH]; simpl; intros l2 lo a Hl.
  - destruct Hl as (-> & Hs & _ & _ & Hl). split; [intros d []|].
    intros d Hd. destruct (laid_out_bounds _ _ _ _ _ Hl d Hd). lia.
  - destruct Hl as (-> & Hs & _ & _ & Hl).
    destruct (IH _ _ _ Hl) as [H1 H2]. split; [|assumption].
    intros d [<-|Hd]; [|auto].
    assert (Hin : In x (l1 ++ x :: l2)) by (apply in_or_app; right; left; reflexivity).
    destruct (laid_out_bounds _ _ _ _ _ Hl x Hin). lia.
Qed.

Lemma laid_out_prev h stop x : forall l1 l2 lo a,
  laid_out h lo a (l1 ++ x :: l2) stop ->
  match (match last l1 with Some p => Some p | None => lo end) with
  | None => Prev (h x) = None
  | Some p => exists q, Prev (h x) = Some q /\ p <= q < x
  end.
Proof.
  induction l1 as [|e l1 IH]; intros l2 lo a Hl.
  - simpl in *. tauto.
  - simpl in Hl. destruct Hl as (-> & _ & _ & _ & Hl).
    specialize (IH _ _ _ Hl).
    destruct l1 as [|e' l1]; [exact IH|].
    change (last (a :: e' :: l1)) with (last (e' :: l1)).
    destruct (last (e' :: l1)) eqn:Hlast; [exact IH|].
    exfalso. clear - Hlast. revert e' Hlast.
    induction l1 as [|b l1 IHl]; intros e' Hlast; [discriminate|].
    apply (IHl b). exact Hlast.
Qed.

Lemma laid_out_between h stop x y l1 l2 lo a :
  laid_out h lo a (l1 ++ x :: y :: l2) stop ->
  forall d, In d (l1 ++ x :: y :: l2) -> d <= x \/ y <= d.
Proof.
  pose proof sizeof_MetaData_eq as HH.
  intros Hl d Hd.
  destruct (laid_out_order _ _ _ _ _ _ _ Hl) as [Hbefore _].
  assert (Hl' : laid_out h lo a ((l1 ++ [x]) ++ y :: l2) stop)
    by (rewrite <- app_assoc; exact Hl).
  destruct (laid_out_order _ _ _ _ _ _ _ Hl') as [_ Hafter].
  assert (Hy : In y (l1 ++ x :: y :: l2))
    by (apply in_or_app; right; right; left; reflexivity).
  destruct (laid_out_bounds _ _ _ _ _ Hl y Hy) as (_ & Hys & _).
  apply in_app_or in Hd. destruct Hd as [Hd|[Hd|[Hd|Hd]]].
  - left. specialize (Hbefore d Hd).
    assert (Hin : In d (l1 ++ x :: y :: l2)) by (apply in_or_app; left; exact Hd).
    destruct (laid_out_bounds _ _ _ _ _ Hl d Hin) as (_ & ? & _). lia.
  - left. lia.
  - right. lia.
  - right. specialize (Hafter d Hd). lia.
Qed.

(** The forward merge and the backward merge keep a buffer laid out and
    touch nothing outside it.  When [Prev] points into the block before,
    not at its header, the backward merge writes into that block's payload
    only. *)
Lemma forward_laid_out h md nx l1 l2 a stop :
  laid_out h None a (l1 ++ md :: nx :: l2) stop -> stop - a < 2 ^ 32 ->
  let h2 := if available (h nx) then merge_next md nx h else h in
  (exists l2', laid_out h2 None a (l1 ++ md :: l2') stop) /\
  (forall x, x <> md -> h2 x = h x).
Proof.
  pose proof sizeof_MetaData_eq as HH.
  intros Hl Hsmall h2. unfold h2. destruct (available (h nx)).
  - destruct (laid_out_order _ _ _ _ _ _ _ Hl) as [_ Hafter].
    assert (Hmd : In md (l1 ++ md :: nx :: l2)) by (apply in_or_app; right; left; reflexivity).
    assert (Hnx : In nx (l1 ++ md :: nx :: l2)) by (apply in_or_app; right; right; left; reflexivity).
    destruct (laid_out_bounds _ _ _ _ _ Hl md Hmd) as (? & ? & ?).
    destruct (laid_out_bounds _ _ _ _ _ Hl nx Hnx) as (? & ? & ?).
    pose proof (Hafter nx (or_introl eq_refl)) as Hgap.
    assert (Hne : nx <> md) by lia.
    split.
    + exists l2. eapply laid_out_absorb; [exact Hl| | | |].
      * unfold merge_next. poke_simpl.
        rewrite (wrap32_small (Size (h nx) + sizeof_MetaData)) by lia.
        rewrite wrap32_small by lia. lia.
      * unfold merge_next. poke_simpl. reflexivity.
      * unfold merge_next. poke_simpl. reflexivity.
      * intros z Hz _. unfold merge_next. poke_simpl. reflexivity.
    + intros x Hx. unfold merge_next. poke_simpl. reflexivity.
  - split; [exists (nx :: l2); exact Hl|]. reflexivity.
Qed.

Lemma backward_laid_out h md l1 l2 a stop :
  laid_out h None a (l1 ++ md :: l2) stop -> stop - a < 2 ^ 32 ->
  let h3 := match Prev (h md) with
            | Some pv => if available (h pv) then merge_prev md pv h else h
            | None => h
            end in
  (exists l, laid_out h3 None a l stop) /\
  (forall x, x < a \/ stop <= x -> h3 x = h x).
Proof.
  pose proof sizeof_MetaData_eq as HH.
  intros Hl Hsmall h3. unfold h3.
  pose proof (laid_out_prev _ _ _ _ _ _ _ Hl) as Hprev.
  destruct (last l1) as [p0|] eqn:Hlast.
  - destruct Hprev as (q & Hq & Hrange). rewrite Hq.
    apply last_Some in Hlast. destruct Hlast as [l1' ->].
    rewrite <- app_assoc in Hl. simpl in Hl.
    destruct (laid_out_order _ _ _ _ _ _ _ Hl) as [Hbefore Hafter].
    assert (Hp0 : In p0 (l1' ++ p0 :: md :: l2)) by (apply in_or_app; right; left; reflexivity).
    assert (Hmd : In md (l1' ++ p0 :: md :: l2)) by (apply in_or_app; right; right; left; reflexivity).
    destruct (laid_out_bounds _ _ _ _ _ Hl p0 Hp0) as (? & ? & ?).
    destruct (laid_out_bounds _ _ _ _ _ Hl md Hmd) as (? & ? & ?).
    pose proof (Hafter md (or_introl eq_refl)) as Hgap.
    destruct (available (h q)); [|split; [eauto|reflexivity]].
    split.
    + destruct (Z.eq_dec q p0) as [->|Hne].
      * exists (l1' ++ p0 :: l2). eapply laid_out_absorb; [exact Hl| | | |].
        -- unfold merge_prev. poke_simpl.
           rewrite (wrap32_small (Size (h md) + sizeof_MetaData)) by lia.
           rewrite wrap32_small by lia. lia.
        -- unfold merge_prev. poke_simpl. reflexivity.
        -- unfold merge_prev. poke_simpl. reflexivity.
        -- intros z Hz _. unfold merge_prev. poke_simpl. reflexivity.
      * exists (l1' ++ p0 :: md :: l2). eapply laid_out_frame; [|exact Hl].
        intros d Hd. assert (d <> q).
        { destruct (laid_out_between _ _ _ _ _ _ _ _ Hl d Hd); lia. }
        unfold merge_prev. poke_simpl. auto.
    + intros x Hx. unfold merge_prev. poke_simpl. reflexivity.
  - rewrite Hprev. split; [eauto|reflexivity].
Qed.

(** [Free] assigns no [Prev] field: whatever it merges, every header keeps
    the [Prev] it had. *)
Lemma Free_keeps_Prev object m m' :
  Free object m = Ok m' -> forall x, Prev (mem m' x) = Prev (mem m x).
Proof.
  intros HF x. apply Free_effect in HF. simpl in HF.
  destruct HF as (nx & _ & (_ & _ & _ & _ & Hm & _)). simpl in Hm. rewrite Hm.
  set (md := object - sizeof_MetaData).
  set (h1 := poke md (set_available true) (mem m)).
  assert (H1 : forall y, Prev (h1 y) = Prev (mem m y)).
  { intros y. unfold h1.
    destruct (Z.eq_dec y md) as [->|Hne]; poke_simpl; reflexivity. }
  assert (Hn : forall a b h y, Prev (merge_next a b h y) = Prev (h y)).
  { intros a b h y. unfold merge_next.
    destruct (Z.eq_dec y a) as [->|Hne]; poke_simpl; reflexivity. }
  assert (Hp : forall a b h y, Prev (merge_prev a b h y) = Prev (h y)).
  { intros a b h y. unfold merge_prev.
    destruct (Z.eq_dec y b) as [->|Hne]; poke_simpl; reflexivity. }
  set (h2 := if available (h1 nx) then merge_next md nx h1 else h1).
  assert (H2 : forall y, Prev (h2 y) = Prev (mem m y)).
  { intros y. unfold h2. destruct (available (h1 nx)); [rewrite Hn|]; apply H1. }
  destruct (Prev (h2 md)) as [pv|]; [|apply H2].
  destruct (available (h2 pv)); [rewrite Hp|]; apply H2.
Qed.

(** [Free] keeps the layout, when it completes and its argument is the
    payload address of a block on a page of the manager. *)
Theorem Free_tidy object m m' :
  tidy m -> holds m (object - sizeof_MetaData) ->
  Free object m = Ok m' -> tidy m'.
Proof.
  pose proof sizeof_MetaData_eq as HH.
  intros Ht Hh HF.
  destruct (tidy_holds _ _ Ht Hh) as (i & pg & l1 & l2 & Hr & Hi & Hl).
  pose proof Ht as (Hpsz & _).
  apply Free_effect in HF. simpl in HF. destruct HF as (nx & Hnx & Hrec).
  set (md := object - sizeof_MetaData) in *.
  set (h1 := poke md (set_available true) (mem m)) in *.
  assert (Hl1 : laid_out h1 None (chunk pg) (l1 ++ md :: l2) (chunk pg + pageSize m)).
  { eapply laid_out_frame; [|exact Hl]. intros d _. unfold h1.
    destruct (Z.eq_dec d md) as [->|Hd]; poke_simpl; auto. }
  assert (Hloc1 : forall x, x <> md -> h1 x = mem m x).
  { intros x Hx. unfold h1. poke_simpl. reflexivity. }
  assert (Hmd : In md (l1 ++ md :: l2)) by (apply in_or_app; right; left; reflexivity).
  destruct (laid_out_bounds _ _ _ _ _ Hl md Hmd) as (Hlo & Hmds & Hhi).
  pose proof (laid_out_next _ _ _ _ _ _ _ Hl) as Hhead. rewrite Hnx in Hhead.
  destruct l2 as [|nx' l2]; [discriminate|]. injection Hhead as <-.
  assert (Hsmall : chunk pg + pageSize m - chunk pg < 2 ^ 32) by lia.
  destruct (forward_laid_out h1 md nx l1 l2 _ _ Hl1 Hsmall) as [[l2' Hl2] Hloc2].
  set (h2 := if available (h1 nx) then merge_next md nx h1 else h1) in *.
  destruct (backward_laid_out h2 md l1 l2' _ _ Hl2 Hsmall) as [[l3 Hl3] Hloc3].
  set (h3 := match Prev (h2 md) with
             | Some pv => if available (h2 pv) then merge_prev md pv h2 else h2
             | None => h2
             end) in *.
  eapply tidy_recount; [exact Hrec|].
  eapply tidy_with_mem; eauto.
  - exists l3. exact Hl3.
  - intros x Hx. rewrite Hloc3 by lia. rewrite Hloc2 by lia. apply Hloc1. lia.
Qed.

(** ** The layout after construction, and what it gives *)

(** The constructor returns a tidy manager, for a page size of at least
    one header and parameters that are [unsigned] values. *)
Theorem VariableMemoryManager_tidy ps ft grow base h0 m :
  sizeof_MetaData <= ps < 2 ^ 32 -> 0 <= ft -> ft + sizeof_MetaData < 2 ^ 32 ->
  VariableMemoryManager ps ft grow (Some base) h0 = Ok m -> tidy m.
Proof.
  pose proof sizeof_MetaData_eq as HH.
  intros Hps Hft Hsum [= <-]. unfold tidy. simpl.
  split; [assumption|]. split; [assumption|]. split; [assumption|].
  exists [0%nat]. simpl. split; [|split; [reflexivity|split]].
  - split; [reflexivity|]. eexists. split; reflexivity.
  - intros i pg [<-|[]] [= <-]. simpl. exists [base]. simpl.
    unfold init_header. poke_simpl. rewrite wrap32_small by lia.
    repeat split; try reflexivity; lia.
  - intros i j pg pg' [<-|[]] [<-|[]] Hne. congruence.
Qed.

(** The blocks of a layout span the bytes between its ends. *)
Lemma laid_out_span h stop : forall l lo a,
  laid_out h lo a l stop -> span h l = stop - a.
Proof.
  induction l as [|d l IH]; simpl; intros lo a Hl.
  - lia.
  - destruct Hl as (-> & _ & _ & _ & Hl). rewrite (IH _ _ Hl). lia.
Qed.

(** On a tidy manager the blocks of every page on the page list fill the
    page's buffer exactly. *)
Theorem tidy_conservation m i pg bl :
  tidy m -> reaches m i -> pages m !! i = Some pg ->
  block_walk (mem m) (Some (chunk pg)) bl ->
  span (mem m) bl = pageSize m /\
  forall d, In d bl ->
    chunk pg <= d /\ 0 <= Size (mem m d) /\
    d + sizeof_MetaData + Size (mem m d) <= chunk pg + pageSize m.
Proof.
  intros Ht Hr Hi Hw.
  pose proof (tidy_laid_out _ _ _ _ Ht Hr Hi Hw) as Hlo. split.
  - rewrite (laid_out_span _ _ _ _ _ Hlo). lia.
  - intros d Hd. eapply laid_out_bounds; eauto.
Qed.

(** [Allocate] keeps the layout: always when the request is placed by the
    page scan, and on the growth path when the request leaves room for a
    second header in the new page and the new buffer overlaps no other. *)
Theorem Allocate_tidy fuel fresh size m ptr m' :
  tidy m -> 0 <= size ->
  (search fuel m size (Some (pageList m)) = Ok None ->
     size + 2 * sizeof_MetaData <= pageSize m /\
     forall base, fresh = Some base ->
       forall j q, pages m !! j = Some q -> apart (pageSize m) (chunk q) base) ->
  Allocate fuel fresh size m = Ok (ptr, m') ->
  tidy m'.
Proof.
  intros Ht Hsize Hgrow HA. unfold Allocate in HA.
  destruct (size >? pageSize m); [injection HA as _ <-; exact Ht|].
  destruct (search fuel m size (Some (pageList m))) as [[[[i pg] w]|]|e] eqn:Hs;
    simpl in HA; [| |discriminate].
  - injection HA as _ <-. exact (place_tidy _ _ _ _ _ _ Ht Hsize Hs).
  - destruct (negb (bAllocate m)); [discriminate|].
    destruct (Hgrow eq_refl) as [Hfit Hfresh].
    destruct fresh as [base|]; [|discriminate].
    eapply grow_tidy; eauto.
Qed.

(** On a tidy manager a block placed by the page scan lies inside its
    page's buffer and has room for the request; so does the header of the
    block behind it. *)
Theorem place_in_buffer fuel m size i pg w :
  tidy m -> 0 <= size ->
  search fuel m size (Some (pageList m)) = Ok (Some (i, pg, w)) ->
  let m' := snd (place i pg w size m) in
  size <= Size (mem m' w) /\
  chunk pg <= w /\
  w + sizeof_MetaData + Size (mem m' w) <= chunk pg + pageSize m /\
  forall n, Next (mem m' w) = Some n ->
    w + sizeof_MetaData + Size (mem m' w) <= n /\
    n + sizeof_MetaData <= chunk pg + pageSize m.
Proof.
  pose proof sizeof_MetaData_eq as HH.
  intros Ht Hsize Hs m'.
  pose proof Ht as (Hpsz & Hft & Hsum & _).
  destruct (search_fits _ _ _ _ _ _ _ Hs) as (_ & _ & _ & Hle).
  apply search_sound in Hs.
  destruct (Hs) as (sk & bl & Hp & Hi & _ & _ & Hw & Hb).
  apply worst_some in Hb. destruct Hb as (l1 & l2 & -> & _).
  assert (Hr : reaches m i) by (exists sk; exact Hp).
  pose proof (tidy_laid_out _ _ _ _ Ht Hr Hi Hw) as Hl.
  assert (Hwin : In w (l1 ++ w :: l2)) by (apply in_or_app; right; left; reflexivity).
  destruct (laid_out_bounds _ _ _ _ _ Hl w Hwin) as (Hlo & Hws & Hhi).
  assert (Hsucc : forall c, Next (mem m w) = Some c ->
                    c = w + sizeof_MetaData + Size (mem m w) /\
                    c + sizeof_MetaData <= chunk pg + pageSize m).
  { intros c Hc. split; [eapply laid_out_succ; eauto|].
    pose proof (laid_out_succ_in _ _ _ _ _ _ _ Hl Hwin Hc) as Hcin.
    destruct (laid_out_bounds _ _ _ _ _ Hl c Hcin) as (? & ? & ?). lia. }
  destruct (place_memory i pg w size m) as [Hsplit Habsorb];
    [lia|lia|lia|lia|intros c Hc; destruct (Hsucc c Hc); lia|].
  fold m' in Hsplit, Habsorb.
  destruct (Z.lt_ge_cases (fragmentThreshold m + sizeof_MetaData)
                          (Size (mem m w) - size)) as [Hsp|Hab].
  - destruct (Hsplit Hsp) as (Hw' & _). rewrite Hw'. simpl.
    split; [lia|]. split; [lia|]. split; [lia|].
    intros n [= <-]. lia.
  - destruct (Habsorb ltac:(lia)) as (Hw' & _). rewrite Hw'. simpl.
    split; [lia|]. split; [lia|]. split; [lia|].
    intros n Hn. destruct (Hsucc n Hn). lia.
Qed.

(** On a page list, the walk to the parent page and [credit] complete. *)
Lemma owner_valid ps : forall n idx p,
  page_chain ps (Some p) idx ->
  exists q pg, owner n ps p = Ok q /\ ps !! q = Some pg.
Proof.
  induction n as [|n IH]; intros idx p Hc;
    destruct idx as [|i idx]; simpl in Hc; try discriminate;
    destruct Hc as ([= <-] & pg & Hpg & Hc).
  - simpl. eauto.
  - simpl. unfold page_at. rewrite Hpg. simpl.
    destruct (Page_Next pg) as [q|] eqn:Hq; [|eauto].
    eapply IH; eauto.
Qed.

Lemma credit_valid p v m pg :
  pages m !! p = Some pg ->
  exists m', credit p v m = Ok m' /\ recount m m'.
Proof.
  intros Hp. unfold credit, page_at. rewrite Hp. simpl.
  eexists. split; [reflexivity|].
  unfold recount. simpl. do 5 (split; [reflexivity|]).
  apply same_layout_memLeft. assumption.
Qed.

(** On a tidy manager [Free] completes exactly when the header in front of
    its argument has a successor. *)
Theorem Free_completes object m :
  tidy m ->
  (exists m', Free object m = Ok m') <->
  Next (mem m (object - sizeof_MetaData)) <> None.
Proof.
  intros Ht. split.
  - intros [m' HF] Hlast. exact (Free_last_block _ _ Hlast m' HF).
  - intros Hnext.
    pose proof Ht as (_ & _ & _ & idx & Hc & _).
    unfold Free. simpl.
    set (md := object - sizeof_MetaData) in *.
    set (h1 := poke md (set_available true) (mem m)).
    destruct (owner_valid (pages m) (Z.to_nat (pageIndex (h1 md))) idx _ Hc)
      as (p & pg & -> & Hp). simpl.
    destruct (credit_valid p (Size (h1 md)) (with_mem h1 m) pg Hp)
      as (m2 & -> & Hr2). simpl.
    destruct Hr2 as (_ & _ & _ & _ & Hm2 & Hl2). simpl in Hm2.
    rewrite Hm2. unfold h1 at 1. rewrite poke_eq. simpl.
    destruct (Next (mem m md)) as [nx|]; [|congruence]. simpl.
    destruct (proj2 Hl2 p pg Hp) as (pg2 & Hp2 & _).
    assert (Hstep : forall h m0 pg0, pages m0 !! p = Some pg0 ->
              exists m3 pg3, credit p sizeof_MetaData (with_mem h m0) = Ok m3 /\
                         mem m3 = h /\ pages m3 !! p = Some pg3).
    { intros h m0 pg0 Hp0.
      destruct (credit_valid p sizeof_MetaData (with_mem h m0) pg0 Hp0)
        as (m3 & Hc3 & Hr3).
      destruct Hr3 as (_ & _ & _ & _ & Hm3 & Hl3).
      destruct (proj2 Hl3 p pg0 Hp0) as (pg3 & Hp3 & _). eauto. }
    assert (Hback : forall m0 pg0, pages m0 !! p = Some pg0 ->
              exists m', match Prev (mem m0 md) with
                         | Some pv =>
                           if available (mem m0 pv)
                           then credit p sizeof_MetaData
                                  (with_mem (merge_prev md pv (mem m0)) m0)
                           else Ok m0
                         | None => Ok m0
                         end = Ok m').
    { intros m0 pg0 Hp0. destruct (Prev (mem m0 md)) as [pv|]; [|eauto].
      destruct (available (mem m0 pv)); [|eauto].
      destruct (Hstep (merge_prev md pv (mem m0)) m0 pg0 Hp0) as (m3 & _ & -> & _).
      eauto. }
    destruct (available (h1 nx)).
    + destruct (Hstep (merge_next md nx h1) m2 pg2 Hp2) as (m3 & pg3 & -> & _ & Hp3).
      simpl. eapply Hback; eauto.
    + simpl. eapply Hback; eauto.
Qed.

(** The test manager is tidy. *)
Lemma TestManager_tidy : tidy TestManager.
Proof.
  apply (VariableMemoryManager_tidy 5120 50 true 4096 zeroed).
  - unfold sizeof_MetaData. lia.
  - lia.
  - unfold sizeof_MetaData. lia.
  - reflexivity.
Qed.

(** On a tidy manager the candidate of the page scan meets the side
    conditions under which the placement is described: its size is an
    [unsigned] value, the threshold leaves room for a header, and its
    successor starts where its payload ends. *)
Lemma tidy_candidate fuel m size i pg w :
  tidy m ->
  search fuel m size (Some (pageList m)) = Ok (Some (i, pg, w)) ->
  0 <= Size (mem m w) < 2 ^ 32 /\
  0 <= fragmentThreshold m /\
  fragmentThreshold m + sizeof_MetaData < 2 ^ 32 /\
  forall c, Next (mem m w) = Some c ->
            c = w + sizeof_MetaData + Size (mem m w).
Proof.
  pose proof sizeof_MetaData_eq as HH.
  intros Ht Hs. pose proof Ht as (Hps & Hft & Hsum & _).
  destruct (search_reaches _ _ _ _ _ _ Hs) as (_ & _ & Hh).
  destruct (tidy_holds _ _ Ht Hh) as (j & q & l1 & l2 & _ & _ & Hlo).
  assert (Hwin : In w (l1 ++ w :: l2)) by (apply in_or_app; right; left; reflexivity).
  destruct (laid_out_bounds _ _ _ _ _ Hlo w Hwin) as (? & ? & ?).
  split; [lia|]. split; [assumption|]. split; [assumption|].
  intros c Hc. eapply laid_out_succ; eauto.
Qed.

(** On a tidy manager the walk over a page visits its blocks by increasing
    address. *)
Lemma tidy_walk_ordered m i pg l1 x l2 :
  tidy m -> reaches m i -> pages m !! i = Some pg ->
  block_walk (mem m) (Some (chunk pg)) (l1 ++ x :: l2) ->
  (forall d, In d l1 -> d < x) /\ (forall d, In d l2 -> x < d).
Proof.
  pose proof sizeof_MetaData_eq as HH.
  intros Ht Hr Hi Hw.
  pose proof (tidy_laid_out _ _ _ _ Ht Hr Hi Hw) as Hlo.
  destruct (laid_out_order _ _ _ _ _ _ _ Hlo) as [Hbefore Hafter].
  assert (Hx : In x (l1 ++ x :: l2)) by (apply in_or_app; right; left; reflexivity).
  destruct (laid_out_bounds _ _ _ _ _ Hlo x Hx) as (_ & Hxs & _).
  split; intros d Hd.
  - specialize (Hbefore d Hd).
    assert (Hin : In d (l1 ++ x :: l2)) by (apply in_or_app; left; exact Hd).
    destruct (laid_out_bounds _ _ _ _ _ Hlo d Hin) as (_ & ? & _). lia.
  - specialize (Hafter d Hd). lia.
Qed.

(** The layout is kept along every admissible sequence of operations. *)
Theorem run_tidy fuel : forall os m m',
  tidy m -> admissible fuel os m -> run fuel os m = Ok m' -> tidy m'.
Proof.
  induction os as [|o os IH]; intros m m' Ht Hadm Hrun; simpl in Hrun.
  - injection Hrun as <-. exact Ht.
  - destruct o as [fresh size|object]; simpl in Hadm, Hrun.
    + destruct Hadm as (Hsize & Hgrow & Hrest).
      destruct (Allocate fuel fresh size m) as [[ptr m1]|e] eqn:HA;
        simpl in Hrun; [|discriminate].
      apply (IH m1 m'); [|exact (Hrest _ eq_refl)|exact Hrun].
      eapply Allocate_tidy; eauto.
    + destruct Hadm as (Hh & Hrest).
      destruct (Free object m) as [m1|e] eqn:HF; simpl in Hrun; [|discriminate].
      apply (IH m1 m'); [|exact (Hrest _ eq_refl)|exact Hrun].
      eapply Free_tidy; eauto.
Qed.

(** The first steps of the test driver, an allocation of one object, one
    of ten, and the release of the first, form an admissible sequence. *)
Lemma driver_admissible :
  admissible 5 [OpAllocate None 28; OpAllocate None 280; OpFree 4112]
             TestManager.
Proof.
  cbn [admissible]. split; [lia|].
  split; [intros Hs; vm_compute in Hs; discriminate|].
  intros r Hr. vm_compute in Hr. injection Hr as <-. cbn [snd].
  split; [lia|].
  split; [intros Hs; vm_compute in Hs; discriminate|].
  intros r Hr. vm_compute in Hr. injection Hr as <-. cbn [snd].
  split; [|intros; exact I].
  exists 0%nat, (mkPage None 4796 4096 0), [4096; 4140; 4436].
  split; [exists []; reflexivity|].
  split; [reflexivity|]. split; [|left; reflexivity].
  evaluate.
Qed.

(** ** Where the code departs from its description *)

(** *** Free: the forward neighbour *)

(** C3 fails on the code.  A request of 5100 bytes takes the whole first
    block of the test manager (headroom 4), which stays the last block of
    its page; freeing it reads through its null [Next]. *)
Theorem Free_reads_null_Next :
  exists m,
    Allocate 5 None 5100 TestManager = Ok (Some 4112, m) /\
    Next (mem m 4096) = None /\
    Free 4112 m = Err NullDeref.
Proof.
  eexists. split; [vm_compute; reflexivity|]. evaluate.
Qed.

(** *** Free: the backward neighbour *)

(** C4 fails on the code.  After the backward merge the first block (at
    4096) has grown by [100 + sizeof(MetaData)] and its [Next] is the third
    block (at 4328), but the third block's [Prev] still names the merged
    block (at 4212): [Free] never assigns [metaData->Next->Prev]. *)
Theorem Free_backward_leaves_Prev :
  exists m,
    run 5 merging_backward TestManager = Ok m /\
    Size (mem m 4096) = 100 + (100 + sizeof_MetaData) /\
    Next (mem m 4096) = Some 4328 /\
    Prev (mem m 4328) = Some 4212.
Proof.
  eexists. split; [vm_compute; reflexivity|]. evaluate.
Qed.

(** *** Accounting *)

(** C5 fails on the code.  After one request of 28 bytes the page holds a
    used block of 28 bytes and one available block of 5060 bytes, but
    [memLeft] is 5076: the split takes [sizeof(MetaData)] bytes for the new
    header and [Allocate] subtracts only the block's size. *)
Theorem memLeft_after_split :
  exists m,
    run 5 [OpAllocate None 28] TestManager = Ok m /\
    block_walk (mem m) (Some 4096) [4096; 4140] /\
    free_bytes (mem m) [4096; 4140] = 5060 /\
    pages m !! 0%nat = Some (mkPage None 5076 4096 0).
Proof.
  eexists. split; [vm_compute; reflexivity|]. evaluate.
Qed.

(** The growth path does not touch [memLeft] at all: with page 0 full, a
    request of 2000 bytes leaves 3088 available bytes in the new page, whose
    [memLeft] stays at 5104. *)
Lemma memLeft_after_growth :
  exists m,
    run 5 [OpAllocate None 5100; OpAllocate (Some 100000) 2000]
        TestManager = Ok m /\
    block_walk (mem m) (Some 100000) [100000; 102016] /\
    free_bytes (mem m) [100000; 102016] = 3088 /\
    pages m !! 1%nat = Some (mkPage None 5104 100000 1).
Proof.
  eexists. split; [vm_compute; reflexivity|]. evaluate.
Qed.

(** *** The growth path *)

(** C6 fails on the code.  A request of 5104 bytes is served from a new
    page (buffer at 100000, 5120 bytes).  The walk over that page visits a
    second header at offset 5120, the end of the buffer, whose size is
    [5104 - 5120] wrapped to 32 bits; the blocks span [2 ^ 32 + 5120]
    bytes. *)
Theorem growth_breaks_contiguity :
  exists m,
    run 5 [OpAllocate (Some 100000) 5104] TestManager = Ok m /\
    pages m !! 1%nat = Some (mkPage None 5104 100000 1) /\
    block_walk (mem m) (Some 100000) [100000; 100000 + 5120] /\
    Size (mem m (100000 + 5120)) = 2 ^ 32 - 16 /\
    span (mem m) [100000; 100000 + 5120] = 2 ^ 32 + pageSize m.
Proof.
  eexists. split; [vm_compute; reflexivity|]. evaluate.
Qed.

(** C7 fails on the code.  The code after [RequestPage] splits whatever the
    request: with [pageSize - sizeof(MetaData) - size = 0] a new available
    header is still linked after the block, at the end of the buffer; and
    once page 0 is full, a request that leaves 54 bytes, within the
    threshold of 50 plus a header, has a block of 38 bytes split off where
    the page scan would have absorbed. *)
Theorem growth_always_splits :
  (exists m,
     Allocate 5 (Some 100000) 5104 TestManager = Ok (Some 100016, m) /\
     pageSize m - sizeof_MetaData - 5104 <= sizeof_MetaData /\
     Size (mem m 100000) = 5104 /\
     Next (mem m 100000) = Some (100000 + pageSize m) /\
     available (mem m (100000 + pageSize m)) = true) /\
  (exists m1 m,
     Allocate 5 None 5100 TestManager = Ok (Some 4112, m1) /\
     Allocate 5 (Some 100000) 5050 m1 = Ok (Some 100016, m) /\
     pageSize m - sizeof_MetaData - 5050
       <= fragmentThreshold m + sizeof_MetaData /\
     Size (mem m 100000) = 5050 /\
     Next (mem m 100000) = Some 105066 /\
     available (mem m 105066) = true /\
     Size (mem m 105066) = 38).
Proof.
  split.
  - eexists. split; [vm_compute; reflexivity|]. evaluate.
  - eexists. eexists. split; [vm_compute; reflexivity|].
    split; [vm_compute; reflexivity|]. evaluate.
Qed.

(** C9 fails on the code.  A request of [pageSize] bytes passes the size
    test and is served from a new page: the pointer returned is 16 bytes
    into a buffer of 5120 bytes, the block is recorded with 5120 bytes, and
    a header is written behind them, 16 bytes past the end of the buffer. *)
Theorem growth_overruns_buffer :
  exists m,
    Allocate 5 (Some 100000) 5120 TestManager = Ok (Some 100016, m) /\
    pages m !! lastPage m = Some (mkPage None 5104 100000 1) /\
    Size (mem m 100000) = 5120 /\
    Next (mem m 100000) = Some (100016 + 5120) /\
    100000 + pageSize m < 100016 + 5120.
Proof.
  eexists. split; [vm_compute; reflexivity|]. evaluate.
Qed.

(** *** Fresh pages *)

(** What the constructor sets up, for any parameters and any memory. *)
Lemma VariableMemoryManager_initial ps ft grow base h0 :
  exists m,
    VariableMemoryManager ps ft grow (Some base) h0 = Ok m /\
    pageCount m = 1 /\ pageList m = 0%nat /\ lastPage m = 0%nat /\
    pages m = [mkPage None (wrap32 (ps - sizeof_MetaData)) base 0] /\
    mem m base = mkMetaData (wrap32 (ps - sizeof_MetaData)) None None
                            (pageIndex (h0 base)) true /\
    forall x, x <> base -> mem m x = h0 x.
Proof.
  eexists. split; [reflexivity|]. simpl. repeat split.
  - unfold init_header. rewrite !poke_eq. reflexivity.
  - intros x Hx. unfold init_header. rewrite !poke_ne by assumption. reflexivity.
Qed.

(** What [RequestPage] sets up. *)
Lemma RequestPage_initial base m lp :
  pages m !! lastPage m = Some lp ->
  exists m',
    RequestPage (Some base) m = Ok m' /\
    pageCount m' = wrap32 (pageCount m + 1) /\
    lastPage m' = length (pages m) /\
    pages m' !! lastPage m = Some (set_Page_Next (Some (lastPage m')) lp) /\
    pages m' !! lastPage m' =
      Some (mkPage None (wrap32 (pageSize m - sizeof_MetaData)) base
                   (wrap16 (pageCount m))) /\
    mem m' base = mkMetaData (wrap32 (pageSize m - sizeof_MetaData)) None None
                             (pageIndex (mem m base)) true.
Proof.
  intros Hlp. unfold RequestPage, page_at. rewrite Hlp. simpl.
  eexists. split; [reflexivity|]. simpl. repeat split.
  - rewrite lookup_app_l by (rewrite length_insert; eapply lookup_lt_Some; eauto).
    apply list_lookup_insert_eq. eapply lookup_lt_Some; eauto.
  - apply list_lookup_middle. now rewrite length_insert.
  - unfold init_header. rewrite !poke_eq. reflexivity.
Qed.

(** C8 fails on the code in one field.  Neither the constructor nor
    [RequestPage] assigns [pageIndex] in the header of the fresh page: it
    keeps what the buffer held (here 0xCDCD), not the page's index; size,
    availability, links, [pageCount], [lastPage] and [index] are as
    claimed. *)
Theorem fresh_header_pageIndex :
  (exists m,
     VariableMemoryManager 5120 50 true (Some 4096) uninitialised = Ok m /\
     pages m = [mkPage None 5104 4096 0] /\
     mem m 4096 = mkMetaData 5104 None None 52685 true) /\
  (exists m0 m,
     VariableMemoryManager 5120 50 true (Some 4096) uninitialised = Ok m0 /\
     RequestPage (Some 100000) m0 = Ok m /\
     pageCount m = 2 /\ lastPage m = 1%nat /\
     pages m = [mkPage (Some 1%nat) 5104 4096 0; mkPage None 5104 100000 1] /\
     mem m 100000 = mkMetaData 5104 None None 52685 true).
Proof.
  split.
  - eexists. split; [vm_compute; reflexivity|]. evaluate.
  - eexists. eexists. split; [vm_compute; reflexivity|].
    split; [vm_compute; reflexivity|]. evaluate.
Qed.

(** ** States reached from the test manager *)

(** The state after an admissible sequence of calls on the test manager is
    tidy. *)
Lemma after_tidy os : admissible 10 os TestManager -> tidy (after os).
Proof.
  intros Hadm. unfold after.
  destruct (run 10 os TestManager) as [m|e] eqn:Hrun; [|apply TestManager_tidy].
  eapply run_tidy; [apply TestManager_tidy|exact Hadm|exact Hrun].
Qed.

(** One request of an admissible sequence, evaluated. *)
Ltac allocate_step :=
  split; [lia|];
  split; [intros Hs; vm_compute in Hs;
          first [discriminate
                |split; [unfold sizeof_MetaData; simpl; lia|];
                 intros base Hb j q Hq; injection Hb as <-;
                 destruct j as [|[|j]]; simpl in Hq; try discriminate;
                 injection Hq as <-; unfold apart; simpl; lia]|];
  intros r Hr; vm_compute in Hr; injection Hr as <-; cbn [snd].

Lemma fragmenting_admissible : admissible 10 fragmenting TestManager.
Proof.
  unfold fragmenting. cbn [admissible].
  do 4 allocate_step.
  split.
  { exists 0%nat; eexists; exists [4096; 5112; 6128; 7144; 8160].
    split; [exists []; reflexivity|]. split; [reflexivity|].
    split; [evaluate|left; reflexivity]. }
  intros m' Hm'. vm_compute in Hm'. injection Hm' as <-.
  split.
  { exists 0%nat; eexists; exists [4096; 5112; 6128; 7144; 8160].
    split; [exists []; reflexivity|]. split; [reflexivity|].
    split; [evaluate|right; right; left; reflexivity]. }
  intros m' Hm'. vm_compute in Hm'. injection Hm' as <-.
  allocate_step. exact I.
Qed.

Lemma filling_admissible : admissible 10 filling TestManager.
Proof.
  unfold filling. cbn [admissible]. allocate_step. exact I.
Qed.

Lemma fragmenting_tidy : tidy (after fragmenting).
Proof. apply after_tidy. exact fragmenting_admissible. Qed.

Lemma filling_tidy : tidy (after filling).
Proof. apply after_tidy. exact filling_admissible. Qed.

(** The five blocks of the first page after [fragmenting]. *)
Lemma fragmenting_holds d :
  In d [4096; 5112; 6128; 7144; 8160] -> holds (after fragmenting) d.
Proof.
  intros Hd. exists 0%nat; eexists; exists [4096; 5112; 6128; 7144; 8160].
  split; [exists []; reflexivity|]. split; [reflexivity|].
  split; [evaluate|exact Hd].
Qed.

(** ** Construction *)

(** X1.  The constructor, given a buffer for a page of at least
    [sizeof(MetaData)] bytes, returns a tidy manager: one page record, whose
    buffer holds one available block of [pageSize - sizeof(MetaData)] bytes,
    and no memory written but that block's header. *)
Theorem constructor_layout ps ft g base h0 :
  sizeof_MetaData <= ps < 2 ^ 32 -> 0 <= ft -> ft + sizeof_MetaData < 2 ^ 32 ->
  exists m,
    VariableMemoryManager ps ft g (Some base) h0 = Ok m /\
    tidy m /\
    pages m = [mkPage None (ps - sizeof_MetaData) base 0] /\
    block_walk (mem m) (Some base) [base] /\
    Size (mem m base) = ps - sizeof_MetaData /\
    available (mem m base) = true /\
    forall x, x <> base -> mem m x = h0 x.
Proof.
  pose proof sizeof_MetaData_eq as HH.
  intros Hps Hft Hsum.
  destruct (VariableMemoryManager_initial ps ft g base h0)
    as (m & Hm & _ & _ & _ & Hpages & Hbase & Hx).
  rewrite wrap32_small in Hpages, Hbase by lia.
  exists m. split; [exact Hm|].
  split; [eapply VariableMemoryManager_tidy; eauto|].
  split; [exact Hpages|]. rewrite Hbase. simpl. rewrite Hbase. simpl.
  repeat split; auto.
Qed.

Lemma constructor_layout_witness :
  exists m,
    VariableMemoryManager 5120 50 true (Some 4096) zeroed = Ok m /\
    tidy m /\
    pages m = [mkPage None (5120 - sizeof_MetaData) 4096 0] /\
    block_walk (mem m) (Some 4096) [4096] /\
    Size (mem m 4096) = 5120 - sizeof_MetaData /\
    available (mem m 4096) = true /\
    forall x, x <> 4096 -> mem m x = zeroed x.
Proof.
  apply (constructor_layout 5120 50 true 4096 zeroed).
  - unfold sizeof_MetaData. lia.
  - lia.
  - unfold sizeof_MetaData. lia.
Defined.

(** X2.  The constructor does not compare [pageSize] with the size of a
    header.  With a page smaller than a header the subtraction wraps: the
    first block claims [2^32 + pageSize - sizeof(MetaData)] bytes, every
    request of at most [pageSize] bytes is placed in it, and the pointer
    returned lies past the end of the buffer. *)
Theorem constructor_small_page ps ft g base h0 m fuel fresh size :
  0 <= ps < sizeof_MetaData ->
  VariableMemoryManager ps ft g (Some base) h0 = Ok m ->
  0 <= size <= ps -> (2 <= fuel)%nat ->
  Size (mem m base) = 2 ^ 32 + ps - sizeof_MetaData /\
  exists ptr m',
    Allocate fuel fresh size m = Ok (Some ptr, m') /\ base + ps < ptr.
Proof.
  pose proof sizeof_MetaData_eq as HH.
  intros Hps Hm Hsize Hfuel.
  assert (Hsz : wrap32 (ps - sizeof_MetaData) = 2 ^ 32 + ps - sizeof_MetaData).
  { unfold wrap32.
    replace (ps - sizeof_MetaData)
      with (2 ^ 32 + ps - sizeof_MetaData + (-1) * 2 ^ 32) by lia.
    rewrite Z.mod_add by lia. apply Z.mod_small. lia. }
  destruct (VariableMemoryManager_initial ps ft g base h0)
    as (m0 & Hm0 & _ & Hpl & _ & Hpages & Hbase & _).
  assert (m0 = m) by congruence. subst m0. clear Hm0.
  rewrite Hsz in Hpages, Hbase.
  assert (Hpsz : pageSize m = ps) by (injection Hm as <-; reflexivity).
  split; [rewrite Hbase; reflexivity|].
  destruct fuel as [|[|fuel]]; try lia.
  assert (Hscan : scan (S fuel) (mem m) size (Some base) None = Ok (Some base)).
  { rewrite (scan_complete _ _ [base]).
    - simpl. unfold fits. rewrite Hbase. simpl.
      destruct (Z.leb_spec size (2 ^ 32 + ps - sizeof_MetaData)); [reflexivity|lia].
    - simpl. rewrite Hbase. auto.
    - simpl. lia. }
  unfold Allocate. rewrite Hpsz. destruct (Z.gtb_spec size ps); [lia|].
  cbn [search]. unfold page_at. rewrite Hpl, Hpages. cbn [lookup list_lookup deref bind memLeft chunk].
  destruct (Z.geb_spec size (2 ^ 32 + ps - sizeof_MetaData)); [lia|].
  rewrite Hscan. cbn [bind]. unfold place.
  eexists. eexists. split; [reflexivity|]. lia.
Qed.

Lemma constructor_small_page_witness :
  Size (mem (mkManager 8 50 1 0%nat 0%nat true
                       [mkPage None 4294967288 4096 0]
                       (init_header 4096 4294967288 zeroed)) 4096)
    = 2 ^ 32 + 8 - sizeof_MetaData /\
  exists ptr m',
    Allocate 2 None 8
             (mkManager 8 50 1 0%nat 0%nat true
                        [mkPage None 4294967288 4096 0]
                        (init_header 4096 4294967288 zeroed))
      = Ok (Some ptr, m') /\
    4096 + 8 < ptr.
Proof.
  apply (constructor_small_page 8 50 true 4096 zeroed _ 2 None 8).
  - unfold sizeof_MetaData. lia.
  - reflexivity.
  - lia.
  - lia.
Defined.

(** ** Page lists and blocks of tidy managers *)




Lemma page_chain_reaches ps i : forall idx p,
  page_chain ps p idx -> In i idx -> exists sk, page_path ps p sk (Some i).
Proof.
  induction idx as [|j idx IH]; simpl; intros p Hc Hin; [destruct Hin|].
  destruct Hc as (-> & pg & Hpg & Hc).
  destruct (Nat.eq_dec j i) as [->|Hne].
  - exists []. reflexivity.
  - destruct Hin as [?|Hin]; [congruence|].
    destruct (IH _ Hc Hin) as [sk Hsk].
    exists ((j, pg) :: sk). simpl. auto.
Qed.

(** A block of the layout of a page on the page list is a block of the
    manager; the layout of a page is unique. *)
Lemma holds_intro m idx j q bl d stop :
  page_chain (pages m) (Some (pageList m)) idx -> In j idx ->
  pages m !! j = Some q ->
  laid_out (mem m) None (chunk q) bl stop -> In d bl -> holds m d.
Proof.
  intros Hc Hj Hq Hl Hd.
  exists j, q, bl. split; [eapply page_chain_reaches; eauto|].
  split; [exact Hq|]. split; [|exact Hd].
  pose proof (laid_out_walk _ _ _ _ _ Hl) as Hw.
  destruct bl as [|e bl]; [destruct Hd|].
  simpl in Hl. destruct Hl as (-> & _). exact Hw.
Qed.

Lemma tidy_list m i pg l l' :
  tidy m -> reaches m i -> pages m !! i = Some pg ->
  laid_out (mem m) None (chunk pg) l (chunk pg + pageSize m) ->
  laid_out (mem m) None (chunk pg) l' (chunk pg + pageSize m) ->
  l = l'.
Proof.
  pose proof sizeof_MetaData_eq as HH.
  intros (Hps & _) _ _ Hl Hl'.
  assert (Hlt : chunk pg < chunk pg + pageSize m) by lia.
  pose proof (laid_out_walk _ _ _ _ _ Hl) as Hw.
  pose proof (laid_out_walk _ _ _ _ _ Hl') as Hw'.
  destruct (laid_out_nonempty _ _ _ _ _ Hlt Hl) as (r & ->).
  destruct (laid_out_nonempty _ _ _ _ _ Hlt Hl') as (r' & ->).
  simpl head in Hw, Hw'. eapply block_walk_unique; eauto.
Qed.

(** Two different blocks of a tidy manager do not overlap, headers
    included. *)
Lemma tidy_blocks_apart m d1 d2 :
  tidy m -> holds m d1 -> holds m d2 -> d1 <> d2 ->
  d1 + sizeof_MetaData + Size (mem m d1) <= d2 \/
  d2 + sizeof_MetaData + Size (mem m d2) <= d1.
Proof.
  pose proof sizeof_MetaData_eq as HH.
  intros Ht H1 H2 Hne.
  destruct (tidy_holds _ _ Ht H1) as (i & pg & l1 & l2 & [sk Hr] & Hi & Hl).
  destruct (tidy_holds _ _ Ht H2) as (j & pg' & l1' & l2' & [sk' Hr'] & Hj & Hl').
  pose proof Ht as (Hps & _ & _ & idx & Hc & _ & _ & Hap).
  assert (Hiidx : In i idx) by (eapply page_path_chain; eauto).
  assert (Hjidx : In j idx) by (eapply page_path_chain; eauto).
  assert (Hd1 : In d1 (l1 ++ d1 :: l2)) by (apply in_or_app; right; left; reflexivity).
  assert (Hd2 : In d2 (l1' ++ d2 :: l2')) by (apply in_or_app; right; left; reflexivity).
  destruct (laid_out_bounds _ _ _ _ _ Hl d1 Hd1) as (? & ? & ?).
  destruct (laid_out_bounds _ _ _ _ _ Hl' d2 Hd2) as (? & ? & ?).
  destruct (Nat.eq_dec i j) as [<-|Hij].
  - assert (pg' = pg) by congruence. subst pg'.
    assert (Heq : l1 ++ d1 :: l2 = l1' ++ d2 :: l2').
    { assert (Hlt : chunk pg < chunk pg + pageSize m) by lia.
      pose proof (laid_out_walk _ _ _ _ _ Hl) as Hw.
      pose proof (laid_out_walk _ _ _ _ _ Hl') as Hw'.
      destruct (laid_out_nonempty _ _ _ _ _ Hlt Hl) as (r & Hr1).
      destruct (laid_out_nonempty _ _ _ _ _ Hlt Hl') as (r' & Hr2).
      rewrite Hr1 in Hw. rewrite Hr2 in Hw'. simpl head in Hw, Hw'.
      rewrite Hr1, Hr2. eapply block_walk_unique; eauto. }
    rewrite <- Heq in Hd2.
    destruct (laid_out_order _ _ _ _ _ _ _ Hl) as [Hbefore Hafter].
    apply in_app_or in Hd2. destruct Hd2 as [Hd2|[Hd2|Hd2]].
    + right. apply Hbefore. exact Hd2.
    + congruence.
    + left. apply Hafter. exact Hd2.
  - pose proof (Hap i j pg pg' Hiidx Hjidx Hij Hi Hj) as Hapart.
    unfold apart in Hapart. lia.
Qed.

(** ** Blocks in use *)

(** Page-scan placement: every block stays a block, and away from the
    candidate keeps its size, successor, page index and availability. *)
Lemma place_keeps fuel m size i pg w d :
  tidy m -> 0 <= size ->
  search fuel m size (Some (pageList m)) = Ok (Some (i, pg, w)) ->
  holds m d ->
  let m' := snd (place i pg w size m) in
  holds m' d /\
  (d <> w ->
   Size (mem m' d) = Size (mem m d) /\ Next (mem m' d) = Next (mem m d) /\
   pageIndex (mem m' d) = pageIndex (mem m d) /\
   available (mem m' d) = available (mem m d)).
Proof.
  pose proof sizeof_MetaData_eq as HH.
  intros Ht Hsize Hs Hd m'.
  pose proof Ht as (Hps & Hft & Hsum & idx & Hchain & _ & _ & Hapart).
  destruct (search_reaches _ _ _ _ _ _ Hs) as (Hr & Hi & Hhw).
  destruct (search_fits _ _ _ _ _ _ _ Hs) as (_ & _ & _ & Hle).
  destruct (tidy_holds _ _ Ht Hhw) as (i0 & pg0 & l1 & l2 & Hr0 & Hi0 & Hlo0).
  assert (Hsame : i0 = i /\ pg0 = pg).
  { apply search_sound in Hs.
    destruct Hs as (sk & bl & _ & _ & _ & _ & Hwalk & Hworst).
    apply worst_some in Hworst. destruct Hworst as (k1 & k2 & -> & _).
    pose proof (tidy_laid_out _ _ _ _ Ht Hr Hi Hwalk) as Hlo.
    destruct (Nat.eq_dec i0 i) as [->|Hne]; [split; congruence|].
    destruct Hr as [sk1 Hr], Hr0 as [sk0 Hr0].
    pose proof (Hapart i0 i pg0 pg
                  (page_path_chain _ _ _ _ _ Hr0 Hchain)
                  (page_path_chain _ _ _ _ _ Hr Hchain) Hne Hi0 Hi) as Hap.
    assert (H1 : In w (l1 ++ w :: l2)) by (apply in_or_app; right; left; reflexivity).
    assert (H2 : In w (k1 ++ w :: k2)) by (apply in_or_app; right; left; reflexivity).
    destruct (laid_out_bounds _ _ _ _ _ Hlo0 w H1) as (? & ? & ?).
    destruct (laid_out_bounds _ _ _ _ _ Hlo w H2) as (? & ? & ?).
    unfold apart in Hap. lia. }
  destruct Hsame as [-> ->]. clear Hr0 Hi0. rename Hlo0 into Hlo.
  assert (Hwin : In w (l1 ++ w :: l2)) by (apply in_or_app; right; left; reflexivity).
  destruct (laid_out_bounds _ _ _ _ _ Hlo w Hwin) as (Hwlo & Hws & Hwhi).
  assert (Hsucc : forall c, Next (mem m w) = Some c ->
                            c = w + sizeof_MetaData + Size (mem m w)).
  { intros c Hc. eapply laid_out_succ; eauto. }
  destruct (place_memory i pg w size m) as [Hsplit Habsorb];
    [lia|lia|lia|lia|intros c Hc; rewrite (Hsucc c Hc); lia|].
  fold m' in Hsplit, Habsorb.
  assert (Hpages : same_layout (pages m) (pages m')).
  { unfold m', place. simpl. apply same_layout_memLeft. assumption. }
  assert (Hchain' : page_chain (pages m') (Some (pageList m')) idx).
  { eapply page_chain_same_layout; eauto. }
  assert (Hiidx : In i idx) by (destruct Hr as [sk Hr]; eapply page_path_chain; eauto).
  (* the layout of page [i] afterwards *)
  assert (Hown : exists l', laid_out (mem m') None (chunk pg) l' (chunk pg + pageSize m)
                            /\ forall x, In x (l1 ++ w :: l2) -> In x l').
  { destruct (Z.lt_ge_cases (fragmentThreshold m + sizeof_MetaData)
                            (Size (mem m w) - size)) as [Hsp|Hab].
    - destruct (Hsplit Hsp) as (Hw' & Hn' & Hc' & Hx').
      exists (l1 ++ w :: (w + sizeof_MetaData + size) :: l2). split.
      + eapply laid_out_insert with (size := size); eauto; try lia;
          try (rewrite Hw'; reflexivity); try (rewrite Hn'; reflexivity).
      + intros x Hx. apply in_app_or in Hx. apply in_or_app.
        destruct Hx as [Hx|[Hx|Hx]]; [left; exact Hx|right; left; exact Hx|].
        right. right. right. exact Hx.
    - destruct (Habsorb ltac:(lia)) as (Hw' & Hx').
      exists (l1 ++ w :: l2). split; [|auto].
      eapply laid_out_frame; [|exact Hlo].
      intros x _. destruct (Z.eq_dec x w) as [->|Hd'].
      + rewrite Hw'. auto.
      + rewrite Hx' by assumption. auto. }
  assert (Hloc : forall x, x < chunk pg \/ chunk pg + pageSize m <= x ->
                           mem m' x = mem m x).
  { intros x Hx.
    destruct (Z.lt_ge_cases (fragmentThreshold m + sizeof_MetaData)
                            (Size (mem m w) - size)) as [Hsp|Hab].
    - destruct (Hsplit Hsp) as (_ & _ & _ & Hx'). apply Hx'; try lia.
      intros Hc. pose proof (laid_out_succ_in _ _ _ _ _ _ _ Hlo Hwin Hc) as Hcin.
      destruct (laid_out_bounds _ _ _ _ _ Hlo _ Hcin) as (? & ? & ?). lia.
    - destruct (Habsorb ltac:(lia)) as (_ & Hx'). apply Hx'. lia. }
  destruct (tidy_holds _ _ Ht Hd) as (j & q & k1 & k2 & Hrj & Hj & Hloj).
  assert (Hjidx : In j idx) by (destruct Hrj as [sk Hrj]; eapply page_path_chain; eauto).
  assert (Hdin : In d (k1 ++ d :: k2)) by (apply in_or_app; right; left; reflexivity).
  destruct (laid_out_bounds _ _ _ _ _ Hloj d Hdin) as (Hdlo & Hds & Hdhi).
  split.
  - destruct (proj2 Hpages j q Hj) as (q' & Hq' & _ & Hchunk).
    destruct (Nat.eq_dec j i) as [->|Hne].
    + assert (q = pg) by congruence. subst q.
      pose proof (tidy_list _ _ _ _ _ Ht Hr Hi Hloj Hlo) as Heq.
      destruct Hown as (l' & Hl' & Hsub).
      eapply holds_intro; [exact Hchain'|exact Hiidx|exact Hq'| |].
      * rewrite Hchunk. exact Hl'.
      * apply Hsub. rewrite <- Heq. exact Hdin.
    + pose proof (Hapart j i q pg Hjidx Hiidx Hne Hj Hi) as Hap. unfold apart in Hap.
      eapply holds_intro; [exact Hchain'|exact Hjidx|exact Hq'| |exact Hdin].
      rewrite Hchunk. eapply laid_out_frame; [|exact Hloj].
      intros x Hx. destruct (laid_out_bounds _ _ _ _ _ Hloj x Hx) as (? & ? & ?).
      rewrite Hloc by lia. auto.
  - intros Hdw.
    destruct (Z.lt_ge_cases (fragmentThreshold m + sizeof_MetaData)
                            (Size (mem m w) - size)) as [Hsp|Hab].
    + destruct (Hsplit Hsp) as (_ & _ & Hc' & Hx').
      destruct (tidy_blocks_apart m d w Ht Hd Hhw Hdw) as [Hb|Ha].
      * rewrite Hx'; [auto|lia|lia|].
        intros Hc. apply Hsucc in Hc. lia.
      * destruct (Next (mem m w)) as [c|] eqn:Hnx.
        -- destruct (Z.eq_dec d c) as [->|Hdc].
           ++ rewrite (Hc' c eq_refl). simpl. auto.
           ++ rewrite Hx'; [auto|lia|lia|congruence].
        -- rewrite Hx'; [auto|lia|lia|congruence].
    + destruct (Habsorb ltac:(lia)) as (_ & Hx'). rewrite Hx' by assumption. auto.
Qed.

(** The growth path: every block stays a block with its header as it was,
    and the first block of the new page is a block. *)
Lemma grow_keeps base size m m' ptr :
  tidy m -> 0 <= size ->
  size + 2 * sizeof_MetaData <= pageSize m ->
  (forall j q, pages m !! j = Some q -> apart (pageSize m) (chunk q) base) ->
  grow (Some base) size m = Ok (ptr, m') ->
  ptr = Some (base + sizeof_MetaData) /\
  holds m' base /\ available (mem m' base) = false /\ Size (mem m' base) = size /\
  forall d, holds m d -> d <> base /\ holds m' d /\ mem m' d = mem m d.
Proof.
  pose proof sizeof_MetaData_eq as HH.
  intros Ht Hsize Hfit Hfresh Hg.
  pose proof (grow_tidy _ _ _ _ _ Ht Hsize Hfit Hfresh Hg) as Ht'.
  pose proof Ht as (Hps & Hft & Hsum & idx & Hchain & Hlast & Hbl & Hapart).
  destruct (page_chain_valid _ _ _ _ Hchain (last_In _ _ Hlast)) as [lp Hlp].
  destruct (grow_effect base size m lp Hlp Hsize)
    as (m2 & Hg2 & Hpsz & Hftm & Hpl & Hlp2 & Hpages & Hb & Hn & Hx).
  rewrite Hg in Hg2. injection Hg2 as -> <-.
  set (n := base + sizeof_MetaData + size) in *.
  set (p := length (pages m)) in *.
  assert (Hchain' : page_chain (pages m') (Some (pageList m')) (idx ++ [p])).
  { rewrite Hpl, Hpages. apply page_chain_extend; auto. }
  assert (Hkeep : forall j q, pages m !! j = Some q ->
            exists q', pages m' !! j = Some q' /\ chunk q' = chunk q).
  { intros j q Hq.
    assert (Hj : (j < p)%nat) by (eapply lookup_lt_Some; eauto).
    rewrite Hpages, lookup_app_l by (rewrite length_insert; assumption).
    destruct (Nat.eq_dec (lastPage m) j) as [<-|Hne].
    - rewrite list_lookup_insert_eq by assumption.
      assert (q = lp) by congruence. subst q. eexists. split; reflexivity.
    - rewrite list_lookup_insert_ne by assumption. eauto. }
  split; [reflexivity|]. split; [|split; [|split]].
  - assert (Hnew : pages m' !! p =
                   Some (mkPage None (wrap32 (pageSize m - sizeof_MetaData)) base
                                (wrap16 (pageCount m)))).
    { rewrite Hpages. apply list_lookup_middle. rewrite length_insert. reflexivity. }
    eapply (holds_intro m' (idx ++ [p]) p _ [base; n] base (base + pageSize m));
      [exact Hchain'|apply in_or_app; right; left; reflexivity|exact Hnew| |left; reflexivity].
    simpl. rewrite Hb, Hn. simpl.
    rewrite (wrap32_small (pageSize m - sizeof_MetaData)) by lia.
    rewrite (wrap32_small (size + sizeof_MetaData)) by lia.
    rewrite wrap32_small by lia.
    repeat split; try reflexivity; try lia.
    exists base. split; [reflexivity|unfold n; lia].
  - rewrite Hb. reflexivity.
  - rewrite Hb. reflexivity.
  - intros d Hd.
    destruct (tidy_holds _ _ Ht Hd) as (j & q & k1 & k2 & Hrj & Hj & Hloj).
    assert (Hjidx : In j idx) by (destruct Hrj as [sk Hrj]; eapply page_path_chain; eauto).
    assert (Hdin : In d (k1 ++ d :: k2)) by (apply in_or_app; right; left; reflexivity).
    pose proof (Hfresh j q Hj) as Hap. unfold apart in Hap.
    assert (Hout : forall x, In x (k1 ++ d :: k2) -> x <> base /\ x <> n).
    { intros x Hxin. destruct (laid_out_bounds _ _ _ _ _ Hloj x Hxin) as (? & ? & ?).
      unfold n. lia. }
    destruct (Hout d Hdin) as [Hdb Hdn].
    split; [exact Hdb|]. split; [|apply Hx; assumption].
    destruct (Hkeep j q Hj) as (q' & Hq' & Hchunk).
    eapply holds_intro;
      [exact Hchain'|apply in_or_app; left; exact Hjidx|exact Hq'| |exact Hdin].
    rewrite Hchunk. eapply laid_out_frame; [|exact Hloj].
    intros x Hxin. destruct (Hout x Hxin). rewrite Hx by assumption. auto.
Qed.

(** X3.  [Allocate] leaves the blocks in use alone.  On a tidy manager,
    under the conditions in which the layout is kept, a block [d] in use
    before the call is in use after it, with the same size and successor;
    and the block behind a returned pointer is in use, holds at least [size]
    bytes and does not overlap [d]. *)
Theorem Allocate_spares_blocks_in_use fuel fresh size m ptr m' d :
  tidy m -> 0 <= size ->
  (search fuel m size (Some (pageList m)) = Ok None ->
     size + 2 * sizeof_MetaData <= pageSize m /\
     forall base, fresh = Some base ->
       forall j q, pages m !! j = Some q -> apart (pageSize m) (chunk q) base) ->
  live m d ->
  Allocate fuel fresh size m = Ok (ptr, m') ->
  live m' d /\
  Size (mem m' d) = Size (mem m d) /\ Next (mem m' d) = Next (mem m d) /\
  forall p, ptr = Some p ->
    live m' (p - sizeof_MetaData) /\
    size <= Size (mem m' (p - sizeof_MetaData)) /\
    (d + sizeof_MetaData + Size (mem m' d) <= p - sizeof_MetaData \/
     p + Size (mem m' (p - sizeof_MetaData)) <= d).
Proof.
  pose proof sizeof_MetaData_eq as HH.
  intros Ht Hsize Hgrow [Hd Hused] HA.
  pose proof (Allocate_tidy _ _ _ _ _ _ Ht Hsize Hgrow HA) as Ht'.
  unfold Allocate in HA. destruct (Z.gtb_spec size (pageSize m)) as [Hgt|Hle].
  { injection HA as <- <-. split; [split; assumption|].
    split; [reflexivity|]. split; [reflexivity|]. intros p [=]. }
  destruct (search fuel m size (Some (pageList m))) as [[[[i pg] w]|]|e] eqn:Hs;
    simpl in HA; [| |discriminate].
  - destruct (search_fits _ _ _ _ _ _ _ Hs) as (_ & _ & Hav & _).
    destruct (search_reaches _ _ _ _ _ _ Hs) as (_ & _ & Hhw).
    assert (Hdw : d <> w) by (intros ->; congruence).
    destruct (place_keeps _ _ _ _ _ _ d Ht Hsize Hs Hd) as [Hd' Hfields].
    destruct (Hfields Hdw) as (HS & HN & _ & HAv).
    destruct (place_keeps _ _ _ _ _ _ w Ht Hsize Hs Hhw) as [Hw' _].
    destruct (place_in_buffer _ _ _ _ _ _ Ht Hsize Hs) as (Hfit & _).
    assert (Hpm : place i pg w size m = (ptr, m')) by congruence.
    assert (Hm' : snd (place i pg w size m) = m') by (rewrite Hpm; reflexivity).
    assert (Hp : ptr = Some (w + sizeof_MetaData)).
    { change (ptr = fst (place i pg w size m)). rewrite Hpm. reflexivity. }
    clear Hpm.
    assert (Hwav : available (mem (snd (place i pg w size m)) w) = false).
    { unfold place. simpl. rewrite poke_eq. reflexivity. }
    rewrite Hm' in *. clear HA.
    split; [split; [exact Hd'|congruence]|].
    split; [exact HS|]. split; [exact HN|].
    intros p Hptr. rewrite Hp in Hptr. injection Hptr as <-.
    replace (w + sizeof_MetaData - sizeof_MetaData) with w by lia.
    split; [split; assumption|]. split; [exact Hfit|].
    destruct (tidy_blocks_apart m' d w Ht' Hd' Hw' Hdw); [left|right]; lia.
  - destruct (bAllocate m); simpl in HA; [|discriminate].
    destruct (Hgrow eq_refl) as [Hroom Hfresh].
    destruct fresh as [base|]; [|unfold grow in HA; simpl in HA; discriminate].
    destruct (grow_keeps _ _ _ _ _ Ht Hsize Hroom (Hfresh base eq_refl) HA)
      as (-> & Hb & Hbav & Hbs & Hold).
    destruct (Hold d Hd) as (Hdb & Hd' & Heq).
    split; [split; [exact Hd'|congruence]|].
    split; [congruence|]. split; [congruence|].
    intros p [= <-].
    replace (base + sizeof_MetaData - sizeof_MetaData) with base by lia.
    split; [split; assumption|]. split; [lia|].
    destruct (tidy_blocks_apart m' d base Ht' Hd' Hb Hdb); [left|right]; lia.
Qed.

Lemma Allocate_spares_blocks_in_use_witness :
  live (after (fragmenting ++ [OpAllocate None 100])) 5112 /\
  Size (mem (after (fragmenting ++ [OpAllocate None 100])) 5112)
    = Size (mem (after fragmenting) 5112) /\
  Next (mem (after (fragmenting ++ [OpAllocate None 100])) 5112)
    = Next (mem (after fragmenting) 5112) /\
  forall p, Some 8176 = Some p ->
    live (after (fragmenting ++ [OpAllocate None 100])) (p - sizeof_MetaData) /\
    100 <= Size (mem (after (fragmenting ++ [OpAllocate None 100]))
                     (p - sizeof_MetaData)) /\
    (5112 + sizeof_MetaData
       + Size (mem (after (fragmenting ++ [OpAllocate None 100])) 5112)
       <= p - sizeof_MetaData \/
     p + Size (mem (after (fragmenting ++ [OpAllocate None 100]))
                   (p - sizeof_MetaData)) <= 5112).
Proof.
  apply (Allocate_spares_blocks_in_use 10 None 100 (after fragmenting)
           (Some 8176) (after (fragmenting ++ [OpAllocate None 100])) 5112).
  - exact fragmenting_tidy.
  - lia.
  - intros Hs. vm_compute in Hs. discriminate.
  - split; [apply fragmenting_holds; simpl; tauto|reflexivity].
  - vm_compute. reflexivity.
Defined.






(** ** When [Allocate] asks for a page, and when it gives up *)

(** A search that ends without a candidate has passed over every page of
    the list; and a search or a scan never ends in [abort()]. *)
Lemma search_none m size : forall fuel p,
  search fuel m size p = Ok None ->
  exists L, page_path (pages m) p L None /\
            forall j q, In (j, q) L -> passed_over m size q.
Proof.
  induction fuel as [|fuel IH]; intros p Hs.
  - destruct p; simpl in Hs; [discriminate|].
    exists []. simpl. split; [reflexivity|]. intros j q [].
  - destruct p as [j|]; simpl in Hs.
    2:{ exists []. simpl. split; [reflexivity|]. intros ? ? []. }
    unfold page_at in Hs.
    destruct (pages m !! j) as [pj|] eqn:Hj; simpl in Hs; [|discriminate].
    destruct (Z.geb_spec size (memLeft pj)) as [Hge|Hlt].
    + destruct (IH _ Hs) as (L & HL & Hall).
      exists ((j, pj) :: L). simpl. split; [auto|].
      intros j' q [[= <- <-]|Hin]; [left; lia|eauto].
    + destruct (scan fuel (mem m) size (Some (chunk pj)) None) as [c|e] eqn:Hsc;
        simpl in Hs; [|discriminate].
      apply scan_sound in Hsc. destruct Hsc as (bl & Hw & _ & ->).
      destruct (worst (mem m) size bl None) as [c|] eqn:Hc; [discriminate|].
      destruct (IH _ Hs) as (L & HL & Hall).
      exists ((j, pj) :: L). simpl. split; [auto|].
      intros j' q [[= <- <-]|Hin]; [|eauto].
      right. exists bl. split; [assumption|]. apply worst_none. assumption.
Qed.

Lemma scan_fault h size : forall fuel a w e,
  scan fuel h size a w = Err e -> e = OutOfFuel.
Proof.
  induction fuel as [|fuel IH]; intros a w e Hs; destruct a as [d|]; simpl in Hs;
    try discriminate.
  - congruence.
  - destruct (negb (available (h d)) || (size >? Size (h d))); eauto.
Qed.

Lemma search_fault m size : forall fuel p e,
  search fuel m size p = Err e -> e = BadPage \/ e = OutOfFuel.
Proof.
  induction fuel as [|fuel IH]; intros p e Hs; destruct p as [j|]; simpl in Hs;
    try discriminate.
  - right. congruence.
  - unfold page_at in Hs.
    destruct (pages m !! j) as [pj|]; simpl in Hs; [|left; congruence].
    destruct (size >=? memLeft pj); [eauto|].
    destruct (scan fuel (mem m) size (Some (chunk pj)) None) as [c|e'] eqn:Hsc;
      simpl in Hs.
    + destruct c; [discriminate|eauto].
    + apply scan_fault in Hsc. right. congruence.
Qed.

(** The growth path adds one page record and returns a pointer; it stops
    in [abort()] only when the system allocator gives no buffer. *)
Lemma grow_pages fresh size m ptr m' :
  grow fresh size m = Ok (ptr, m') ->
  length (pages m') = S (length (pages m)) /\ exists p, ptr = Some p.
Proof.
  unfold grow, RequestPage, page_at.
  destruct fresh as [base|]; simpl; [|discriminate].
  destruct (pages m !! lastPage m) as [lp|]; simpl; [|discriminate].
  unfold carve, page_at. simpl.
  rewrite list_lookup_middle by (rewrite length_insert; reflexivity). simpl.
  intros [= <- <-]. simpl. rewrite length_app, length_insert. simpl.
  split; [lia|eauto].
Qed.

Lemma grow_fault fresh size m e :
  grow fresh size m = Err e ->
  (e = Aborted /\ fresh = None) \/ e = BadPage.
Proof.
  unfold grow, RequestPage, page_at.
  destruct fresh as [base|]; simpl; [|left; split; congruence].
  destruct (pages m !! lastPage m) as [lp|]; simpl; [|right; congruence].
  unfold carve, page_at. simpl.
  rewrite list_lookup_middle by (rewrite length_insert; reflexivity). simpl.
  discriminate.
Qed.

(** X5.  [Allocate] creates a page record only when the request fits a
    page, growth is enabled, the system allocator answers, and the search
    has passed over every page of the list (by the [memLeft] filter or
    because no block of the page fits); it then creates exactly one. *)
Theorem Allocate_new_page_when_exhausted fuel fresh size m ptr m' :
  Allocate fuel fresh size m = Ok (ptr, m') ->
  length (pages m') <> length (pages m) ->
  size <= pageSize m /\ bAllocate m = true /\ fresh <> None /\
  length (pages m') = S (length (pages m)) /\
  exists L, page_path (pages m) (Some (pageList m)) L None /\
            forall j q, In (j, q) L -> passed_over m size q.
Proof.
  unfold Allocate. destruct (Z.gtb_spec size (pageSize m)) as [Hgt|Hle].
  - intros [= <- <-] Hn. congruence.
  - destruct (search fuel m size (Some (pageList m))) as [[[[i pg] w]|]|e] eqn:Hs;
      simpl; [| |discriminate].
    + unfold place. simpl. intros [= <- <-] Hn. simpl in Hn.
      rewrite length_insert in Hn. congruence.
    + destruct (bAllocate m); simpl; [|discriminate].
      intros Hg _. split; [exact Hle|]. split; [reflexivity|].
      split; [intros ->; discriminate|].
      split; [apply grow_pages in Hg; tauto|].
      eapply search_none; eauto.
Qed.

Lemma Allocate_new_page_when_exhausted_witness :
  2000 <= pageSize (after filling) /\
  bAllocate (after filling) = true /\
  Some 100000 <> None /\
  length (pages (after (filling ++ [OpAllocate (Some 100000) 2000])))
    = S (length (pages (after filling))) /\
  exists L,
    page_path (pages (after filling)) (Some (pageList (after filling))) L None /\
    forall j q, In (j, q) L -> passed_over (after filling) 2000 q.
Proof.
  apply (Allocate_new_page_when_exhausted 10 (Some 100000) 2000 (after filling)
           (Some 100016) (after (filling ++ [OpAllocate (Some 100000) 2000]))).
  - vm_compute. reflexivity.
  - vm_compute. discriminate.
Defined.

(** X6.  [Allocate] ends in [abort()] only when the request fits a page
    and the search has passed over every page of the list, and then because
    growth is disabled or because the system allocator gave no buffer. *)
Theorem Allocate_aborts_when_exhausted fuel fresh size m :
  Allocate fuel fresh size m = Err Aborted ->
  size <= pageSize m /\ (bAllocate m = false \/ fresh = None) /\
  exists L, page_path (pages m) (Some (pageList m)) L None /\
            forall j q, In (j, q) L -> passed_over m size q.
Proof.
  unfold Allocate. destruct (Z.gtb_spec size (pageSize m)) as [Hgt|Hle];
    [discriminate|].
  destruct (search fuel m size (Some (pageList m))) as [[[[i pg] w]|]|e] eqn:Hs;
    simpl; [discriminate| |].
  - intros Hab. split; [exact Hle|]. split; [|eapply search_none; eauto].
    destruct (bAllocate m); simpl in Hab; [|left; reflexivity].
    apply grow_fault in Hab. destruct Hab as [[_ ->]|]; [right; reflexivity|discriminate].
  - intros [= ->]. apply search_fault in Hs. destruct Hs; discriminate.
Qed.

Lemma Allocate_aborts_when_exhausted_witness :
  2000 <= pageSize (after filling) /\
  (bAllocate (after filling) = false \/ @None Z = None) /\
  exists L,
    page_path (pages (after filling)) (Some (pageList (after filling))) L None /\
    forall j q, In (j, q) L -> passed_over (after filling) 2000 q.
Proof.
  apply (Allocate_aborts_when_exhausted 10 None 2000 (after filling)).
  vm_compute. reflexivity.
Defined.

(** X7.  The growth path never compares the request with the room in
    the new page.  For every request of at most [pageSize] and more than
    [pageSize - 2 * sizeof(MetaData)] bytes that the search cannot place,
    the second header is written where it does not fit into the new buffer,
    is marked available, and gets the wrapped size
    [2^32 + pageSize - 2 * sizeof(MetaData) - size]; [memLeft] of the new
    page stays at [pageSize - sizeof(MetaData)]. *)
Theorem growth_without_room fuel base size m :
  tidy m -> 0 <= size <= pageSize m ->
  pageSize m < size + 2 * sizeof_MetaData ->
  bAllocate m = true ->
  search fuel m size (Some (pageList m)) = Ok None ->
  exists m',
    Allocate fuel (Some base) size m = Ok (Some (base + sizeof_MetaData), m') /\
    Next (mem m' base) = Some (base + sizeof_MetaData + size) /\
    base + pageSize m < base + sizeof_MetaData + size + sizeof_MetaData /\
    available (mem m' (base + sizeof_MetaData + size)) = true /\
    Size (mem m' (base + sizeof_MetaData + size))
      = 2 ^ 32 + pageSize m - 2 * sizeof_MetaData - size /\
    pages m' !! lastPage m'
      = Some (mkPage None (pageSize m - sizeof_MetaData) base
                     (wrap16 (pageCount m))).
Proof.
  pose proof sizeof_MetaData_eq as HH.
  intros Ht Hsize Hroom Hb Hs.
  pose proof Ht as (Hps & _ & _ & idx & Hchain & Hlast & _).
  destruct (page_chain_valid _ _ _ _ Hchain (last_In _ _ Hlast)) as [lp Hlp].
  assert (H0 : 0 <= size) by lia.
  destruct (grow_effect base size m lp Hlp H0)
    as (m' & Hg & _ & _ & _ & Hlp' & Hpages & Hbase & Hn & _).
  exists m'. split; [rewrite Allocate_grow by (assumption || lia); exact Hg|].
  rewrite Hbase, Hn. simpl.
  split; [reflexivity|]. split; [lia|]. split; [reflexivity|]. split.
  - rewrite (wrap32_small (pageSize m - sizeof_MetaData)) by lia.
    unfold wrap32. rewrite Zminus_mod_idemp_r.
    replace (pageSize m - sizeof_MetaData - (size + sizeof_MetaData))
      with (2 ^ 32 + pageSize m - 2 * sizeof_MetaData - size + (-1) * 2 ^ 32) by lia.
    rewrite Z.mod_add by lia. apply Z.mod_small. lia.
  - rewrite Hlp', Hpages.
    rewrite list_lookup_middle by (rewrite length_insert; reflexivity).
    rewrite (wrap32_small (pageSize m - sizeof_MetaData)) by lia. reflexivity.
Qed.

Lemma growth_without_room_witness :
  exists m',
    Allocate 10 (Some 100000) 5100 (after filling)
      = Ok (Some (100000 + sizeof_MetaData), m') /\
    Next (mem m' 100000) = Some (100000 + sizeof_MetaData + 5100) /\
    100000 + pageSize (after filling)
      < 100000 + sizeof_MetaData + 5100 + sizeof_MetaData /\
    available (mem m' (100000 + sizeof_MetaData + 5100)) = true /\
    Size (mem m' (100000 + sizeof_MetaData + 5100))
      = 2 ^ 32 + pageSize (after filling) - 2 * sizeof_MetaData - 5100 /\
    pages m' !! lastPage m'
      = Some (mkPage None (pageSize (after filling) - sizeof_MetaData) 100000
                     (wrap16 (pageCount (after filling)))).
Proof.
  apply (growth_without_room 10 100000 5100 (after filling)).
  - exact filling_tidy.
  - evaluate.
  - evaluate.
  - reflexivity.
  - vm_compute. reflexivity.
Defined.

(** ** Accounting of a placement *)

(** Available bytes of a list of blocks, by parts and under changes that
    keep sizes and flags. *)
Lemma free_bytes_app h l1 l2 :
  free_bytes h (l1 ++ l2) = free_bytes h l1 + free_bytes h l2.
Proof. induction l1 as [|d l1 IH]; simpl; [reflexivity|]. rewrite IH. lia. Qed.

Lemma free_bytes_frame h h' l :
  (forall d, In d l -> Size (h' d) = Size (h d) /\
                       available (h' d) = available (h d)) ->
  free_bytes h' l = free_bytes h l.
Proof.
  induction l as [|d l IH]; simpl; intros Hag; [reflexivity|].
  destruct (Hag d (or_introl eq_refl)) as [-> ->]. rewrite IH; auto.
Qed.

(** What the placement does to the block list of the page, to its
    available bytes and to [memLeft]. *)
Lemma place_accounting fuel m size i pg w bl :
  tidy m -> 0 <= size ->
  search fuel m size (Some (pageList m)) = Ok (Some (i, pg, w)) ->
  block_walk (mem m) (Some (chunk pg)) bl ->
  exists bl',
    block_walk (mem (snd (place i pg w size m))) (Some (chunk pg)) bl' /\
    pages (snd (place i pg w size m)) !! i
      = Some (set_memLeft
                (wrap32 (memLeft pg - Size (mem (snd (place i pg w size m)) w)))
                pg) /\
    (fragmentThreshold m + sizeof_MetaData < Size (mem m w) - size ->
       Size (mem (snd (place i pg w size m)) w) = size /\
       free_bytes (mem (snd (place i pg w size m))) bl'
         = free_bytes (mem m) bl - size - sizeof_MetaData) /\
    (Size (mem m w) - size <= fragmentThreshold m + sizeof_MetaData ->
       Size (mem (snd (place i pg w size m)) w) = Size (mem m w) /\
       free_bytes (mem (snd (place i pg w size m))) bl'
         = free_bytes (mem m) bl - Size (mem m w)).
Proof.
  pose proof sizeof_MetaData_eq as HH.
  intros Ht Hsize Hs Hbl.
  pose proof Ht as (Hps & Hft & Hsum & _).
  destruct (search_reaches _ _ _ _ _ _ Hs) as (Hr & Hi & _).
  destruct (search_fits _ _ _ _ _ _ _ Hs) as (_ & _ & Hav & Hle).
  pose proof Hs as Hs0. apply search_sound in Hs0.
  destruct Hs0 as (sk & bl0 & _ & _ & _ & _ & Hwalk & Hworst).
  assert (bl0 = bl) by (eapply block_walk_unique; eauto). subst bl0.
  apply worst_some in Hworst. destruct Hworst as (l1 & l2 & -> & _).
  pose proof (tidy_laid_out _ _ _ _ Ht Hr Hi Hwalk) as Hlo.
  assert (Hwin : In w (l1 ++ w :: l2)) by (apply in_or_app; right; left; reflexivity).
  destruct (laid_out_bounds _ _ _ _ _ Hlo w Hwin) as (Hwlo & Hws & Hwhi).
  destruct (laid_out_order _ _ _ _ _ _ _ Hlo) as [Hbefore Hafter].
  assert (Hsucc : forall c, Next (mem m w) = Some c ->
                            c = w + sizeof_MetaData + Size (mem m w)).
  { intros c Hc. eapply laid_out_succ; eauto. }
  destruct (place_memory i pg w size m) as [Hsplit Habsorb];
    [lia|lia|lia|lia|intros c Hc; rewrite (Hsucc c Hc); lia|].
  assert (Hpage : pages (snd (place i pg w size m)) !! i
                  = Some (set_memLeft
                            (wrap32 (memLeft pg
                                     - Size (mem (snd (place i pg w size m)) w)))
                            pg)).
  { unfold place. simpl. apply list_lookup_insert_eq. eapply lookup_lt_Some; eauto. }
  set (m' := snd (place i pg w size m)) in *. clearbody m'.
  assert (Hhead : forall l, head (l1 ++ w :: l) = Some (chunk pg)).
  { intros l. pose proof Hlo as Hlo'.
    destruct l1 as [|e l1]; simpl in Hlo' |- *; destruct Hlo' as (-> & _); reflexivity. }
  rewrite !free_bytes_app. simpl free_bytes. rewrite Hav.
  destruct (Z.lt_ge_cases (fragmentThreshold m + sizeof_MetaData)
                          (Size (mem m w) - size)) as [Hsp|Hab].
  - destruct (Hsplit Hsp) as (Hw' & Hn' & Hc' & Hx').
    set (n := w + sizeof_MetaData + size) in *.
    exists (l1 ++ w :: n :: l2). split; [|split; [exact Hpage|split; [|intros; lia]]].
    + rewrite <- (Hhead (n :: l2)). eapply laid_out_walk.
      eapply laid_out_insert with (size := size) (h := mem m); eauto; try lia;
        try (rewrite Hw'; reflexivity); try (rewrite Hn'; reflexivity).
    + intros _. split; [rewrite Hw'; reflexivity|].
      assert (Hkeep : forall x, In x l1 \/ In x l2 ->
                Size (mem m' x) = Size (mem m x) /\
                available (mem m' x) = available (mem m x)).
      { intros x Hxin.
        assert (Hxw : x <> w /\ x <> n).
        { destruct Hxin as [Hx1|Hx2].
          - specialize (Hbefore x Hx1).
            assert (Hin : In x (l1 ++ w :: l2)) by (apply in_or_app; left; exact Hx1).
            destruct (laid_out_bounds _ _ _ _ _ Hlo x Hin) as (? & ? & ?).
            unfold n. lia.
          - specialize (Hafter x Hx2). unfold n. lia. }
        destruct Hxw as [Hxw Hxn].
        destruct (Next (mem m w)) as [c|] eqn:Hnx.
        - destruct (Z.eq_dec x c) as [->|Hxc].
          + rewrite (Hc' c eq_refl). simpl. auto.
          + rewrite Hx'; [auto|assumption|assumption|congruence].
        - rewrite Hx'; [auto|assumption|assumption|congruence]. }
      rewrite free_bytes_app. simpl free_bytes. rewrite Hw', Hn'. simpl.
      rewrite (free_bytes_frame (mem m) (mem m') l1) by (intros; apply Hkeep; auto).
      rewrite (free_bytes_frame (mem m) (mem m') l2) by (intros; apply Hkeep; auto).
      lia.
  - destruct (Habsorb ltac:(lia)) as (Hw' & Hx').
    exists (l1 ++ w :: l2). split; [|split; [exact Hpage|split; [intros; lia|]]].
    + rewrite <- (Hhead l2). eapply laid_out_walk.
      eapply laid_out_frame; [|exact Hlo].
      intros x _. destruct (Z.eq_dec x w) as [->|Hd'].
      * rewrite Hw'. auto.
      * rewrite Hx' by assumption. auto.
    + intros _. split; [rewrite Hw'; reflexivity|].
      assert (Hkeep : forall x, In x l1 \/ In x l2 ->
                Size (mem m' x) = Size (mem m x) /\
                available (mem m' x) = available (mem m x)).
      { intros x Hxin. rewrite Hx'; [auto|].
        destruct Hxin as [Hx1|Hx2].
        - specialize (Hbefore x Hx1).
          assert (Hin : In x (l1 ++ w :: l2)) by (apply in_or_app; left; exact Hx1).
          destruct (laid_out_bounds _ _ _ _ _ Hlo x Hin) as (? & ? & ?). lia.
        - specialize (Hafter x Hx2). lia. }
      rewrite free_bytes_app. simpl free_bytes. rewrite Hw'. simpl.
      rewrite (free_bytes_frame (mem m) (mem m') l1) by (intros; apply Hkeep; auto).
      rewrite (free_bytes_frame (mem m) (mem m') l2) by (intros; apply Hkeep; auto).
      lia.
Qed.

(** X8.  When the page scan places a request, [memLeft] of the page
    drops by the size the chosen block has afterwards.  Without a split that
    is the drop in available bytes of the page; with a split [memLeft] drops
    by [size] while the available bytes drop by
    [size + sizeof(MetaData)]: the new header is never accounted for. *)
Theorem Allocate_accounting fuel fresh size m i pg w bl ptr m' :
  tidy m -> 0 <= size ->
  search fuel m size (Some (pageList m)) = Ok (Some (i, pg, w)) ->
  block_walk (mem m) (Some (chunk pg)) bl ->
  Allocate fuel fresh size m = Ok (ptr, m') ->
  exists bl',
    block_walk (mem m') (Some (chunk pg)) bl' /\
    pages m' !! i
      = Some (set_memLeft (wrap32 (memLeft pg - Size (mem m' w))) pg) /\
    (fragmentThreshold m + sizeof_MetaData < Size (mem m w) - size ->
       Size (mem m' w) = size /\
       free_bytes (mem m') bl'
         = free_bytes (mem m) bl - size - sizeof_MetaData) /\
    (Size (mem m w) - size <= fragmentThreshold m + sizeof_MetaData ->
       Size (mem m' w) = Size (mem m w) /\
       free_bytes (mem m') bl' = free_bytes (mem m) bl - Size (mem m w)).
Proof.
  pose proof sizeof_MetaData_eq as HH.
  intros Ht Hsize Hs Hbl HA.
  assert (Hm' : snd (place i pg w size m) = m').
  { destruct (search_fits _ _ _ _ _ _ _ Hs) as (_ & _ & _ & Hle).
    destruct (search_reaches _ _ _ _ _ _ Hs) as (_ & _ & Hh).
    destruct (tidy_holds _ _ Ht Hh) as (j & q & l1 & l2 & _ & _ & Hlo).
    assert (Hwin : In w (l1 ++ w :: l2)) by (apply in_or_app; right; left; reflexivity).
    destruct (laid_out_bounds _ _ _ _ _ Hlo w Hwin) as (? & ? & ?).
    unfold Allocate in HA. destruct (Z.gtb_spec size (pageSize m)); [lia|].
    rewrite Hs in HA. simpl in HA.
    assert (Hpm : place i pg w size m = (ptr, m')) by congruence.
    rewrite Hpm. reflexivity. }
  rewrite <- Hm'. eapply place_accounting; eauto.
Qed.

Lemma Allocate_accounting_witness :
  exists bl',
    block_walk (mem (after [OpAllocate None 28]))
               (Some (chunk (mkPage None 5104 4096 0))) bl' /\
    pages (after [OpAllocate None 28]) !! 0%nat
      = Some (set_memLeft
                (wrap32 (memLeft (mkPage None 5104 4096 0)
                         - Size (mem (after [OpAllocate None 28]) 4096)))
                (mkPage None 5104 4096 0)) /\
    (fragmentThreshold TestManager + sizeof_MetaData
       < Size (mem TestManager 4096) - 28 ->
       Size (mem (after [OpAllocate None 28]) 4096) = 28 /\
       free_bytes (mem (after [OpAllocate None 28])) bl'
         = free_bytes (mem TestManager) [4096] - 28 - sizeof_MetaData) /\
    (Size (mem TestManager 4096) - 28
       <= fragmentThreshold TestManager + sizeof_MetaData ->
       Size (mem (after [OpAllocate None 28]) 4096) = Size (mem TestManager 4096) /\
       free_bytes (mem (after [OpAllocate None 28])) bl'
         = free_bytes (mem TestManager) [4096] - Size (mem TestManager 4096)).
Proof.
  apply (Allocate_accounting 10 None 28 TestManager 0%nat
           (mkPage None 5104 4096 0) 4096 [4096] (Some 4112)
           (after [OpAllocate None 28])).
  - exact TestManager_tidy.
  - lia.
  - vm_compute. reflexivity.
  - evaluate.
  - vm_compute. reflexivity.
Defined.

(** ** A split undone by the release of the block *)

(** X9.  Round trip.  When the page scan places a request by splitting
    its candidate [w], freeing the returned pointer right away completes,
    merges the remainder back, and restores the header of [w] field by
    field; the manager is tidy again. *)
Theorem Allocate_Free_round_trip fuel fresh size m i pg w :
  tidy m -> 0 <= size ->
  search fuel m size (Some (pageList m)) = Ok (Some (i, pg, w)) ->
  fragmentThreshold m + sizeof_MetaData < Size (mem m w) - size ->
  exists m' m'',
    Allocate fuel fresh size m = Ok (Some (w + sizeof_MetaData), m') /\
    Free (w + sizeof_MetaData) m' = Ok m'' /\
    mem m'' w = mem m w /\ tidy m''.
Proof.
  pose proof sizeof_MetaData_eq as HH.
  intros Ht Hsize Hs Hsp.
  pose proof Ht as (Hps & Hft & Hsum & _).
  destruct (search_reaches _ _ _ _ _ _ Hs) as (Hr & Hi & Hhw).
  destruct (search_fits _ _ _ _ _ _ _ Hs) as (_ & _ & Hav & Hle).
  destruct (tidy_holds _ _ Ht Hhw) as (i0 & pg0 & l1 & l2 & _ & _ & Hlo).
  assert (Hwin : In w (l1 ++ w :: l2)) by (apply in_or_app; right; left; reflexivity).
  destruct (laid_out_bounds _ _ _ _ _ Hlo w Hwin) as (Hwlo & Hws & Hwhi).
  assert (Hsucc : forall c, Next (mem m w) = Some c ->
                            c = w + sizeof_MetaData + Size (mem m w)).
  { intros c Hc. eapply laid_out_succ; eauto. }
  assert (Hprev : forall q, Prev (mem m w) = Some q -> q <> w).
  { intros q Hq. pose proof (laid_out_prev _ _ _ _ _ _ _ Hlo) as Hp.
    destruct (last l1); [|congruence].
    destruct Hp as (q' & Hq' & Hrange). assert (q' = q) by congruence. lia. }
  destruct (place_memory i pg w size m) as [Hsplit _];
    [lia|lia|lia|lia|intros c Hc; rewrite (Hsucc c Hc); lia|].
  destruct (Hsplit Hsp) as (Hw' & Hn' & _ & _). clear Hsplit.
  set (m' := snd (place i pg w size m)) in *.
  set (n := w + sizeof_MetaData + size) in *.
  assert (Ht' : tidy m') by (eapply place_tidy; eauto).
  assert (Hhw' : holds m' w) by (eapply place_keeps; eauto).
  assert (Hmd : w + sizeof_MetaData - sizeof_MetaData = w) by lia.
  assert (HA : Allocate fuel fresh size m = Ok (Some (w + sizeof_MetaData), m')).
  { unfold Allocate. destruct (Z.gtb_spec size (pageSize m)); [lia|].
    rewrite Hs. reflexivity. }
  clearbody m'.
  assert (Hfree : exists m'', Free (w + sizeof_MetaData) m' = Ok m'').
  { apply Free_completes; [exact Ht'|]. rewrite Hmd, Hw'. discriminate. }
  destruct Hfree as [m'' HF].
  exists m', m''. split; [exact HA|split; [exact HF|split]].
  - pose proof (Free_effect _ _ _ HF) as He. simpl in He. rewrite Hmd in He.
    destruct He as (nx & Hnx & (_ & _ & _ & _ & Hm & _)). simpl in Hm.
    rewrite Hw' in Hnx. simpl in Hnx. injection Hnx as <-.
    assert (Hnw : n <> w) by (unfold n; lia).
    rewrite Hm.
    set (h1 := poke w (set_available true) (mem m')) in *.
    assert (H1n : h1 n = mem m' n) by (unfold h1; poke_simpl; reflexivity).
    assert (H1w : h1 w = set_available true (mem m' w))
      by (unfold h1; poke_simpl; reflexivity).
    rewrite H1n, Hn'. simpl.
    set (h2 := merge_next w n h1).
    assert (H2w : h2 w = mem m w).
    { unfold h2, merge_next. poke_simpl. rewrite H1n, H1w, Hn', Hw'. simpl.
      replace (Size (mem m w) - size - sizeof_MetaData + sizeof_MetaData)
        with (Size (mem m w) - size) by lia.
      rewrite (wrap32_small (Size (mem m w) - size)) by lia.
      replace (size + (Size (mem m w) - size)) with (Size (mem m w)) by lia.
      rewrite wrap32_small by lia.
      destruct (mem m w) as [s nx pv pi av]. simpl in *. subst av. reflexivity. }
    rewrite H2w. destruct (Prev (mem m w)) as [pv|] eqn:Hpv; [|exact H2w].
    destruct (available (h2 pv)); [|exact H2w].
    pose proof (Hprev pv eq_refl) as Hne.
    unfold merge_prev. poke_simpl. exact H2w.
  - eapply Free_tidy; [exact Ht'| |exact HF]. rewrite Hmd. exact Hhw'.
Qed.

Lemma Allocate_Free_round_trip_witness :
  exists m' m'',
    Allocate 5 None 28 TestManager = Ok (Some (4096 + sizeof_MetaData), m') /\
    Free (4096 + sizeof_MetaData) m' = Ok m'' /\
    mem m'' 4096 = mem TestManager 4096 /\ tidy m''.
Proof.
  apply (Allocate_Free_round_trip 5 None 28 TestManager 0%nat
           (mkPage None 5104 4096 0) 4096).
  - exact TestManager_tidy.
  - lia.
  - vm_compute. reflexivity.
  - evaluate.
Defined.

(** ** What [Free] writes, and when it completes *)

(** After [Free] the freed header is available and no other header has
    changed its flag; no header has changed its page index. *)
Lemma Free_available object m m' :
  Free object m = Ok m' ->
  available (mem m' (object - sizeof_MetaData)) = true /\
  forall x, x <> object - sizeof_MetaData ->
            available (mem m' x) = available (mem m x).
Proof.
  intros HF. apply Free_effect in HF. simpl in HF.
  destruct HF as (nx & _ & (_ & _ & _ & _ & Hm & _)). simpl in Hm. rewrite Hm.
  set (md := object - sizeof_MetaData).
  set (h1 := poke md (set_available true) (mem m)).
  assert (Hn : forall a b h y, available (merge_next a b h y) = available (h y)).
  { intros a b h y. unfold merge_next.
    destruct (Z.eq_dec y a) as [->|Hne]; poke_simpl; reflexivity. }
  assert (Hp : forall a b h y, available (merge_prev a b h y) = available (h y)).
  { intros a b h y. unfold merge_prev.
    destruct (Z.eq_dec y b) as [->|Hne]; poke_simpl; reflexivity. }
  set (h2 := if available (h1 nx) then merge_next md nx h1 else h1).
  assert (H2 : forall y, available (h2 y) = available (h1 y)).
  { intros y. unfold h2. destruct (available (h1 nx)); [rewrite Hn|]; reflexivity. }
  assert (H3 : forall y,
            available (match Prev (h2 md) with
                       | Some pv => if available (h2 pv)
                                    then merge_prev md pv h2 else h2
                       | None => h2
                       end y) = available (h1 y)).
  { intros y. destruct (Prev (h2 md)) as [pv|]; [|apply H2].
    destruct (available (h2 pv)); [rewrite Hp|]; apply H2. }
  split.
  - rewrite H3. unfold h1. poke_simpl. reflexivity.
  - intros x Hx. rewrite H3. unfold h1. poke_simpl. reflexivity.
Qed.

Lemma Free_pageIndex object m m' :
  Free object m = Ok m' -> forall x, pageIndex (mem m' x) = pageIndex (mem m x).
Proof.
  intros HF x. apply Free_effect in HF. simpl in HF.
  destruct HF as (nx & _ & (_ & _ & _ & _ & Hm & _)). simpl in Hm. rewrite Hm.
  set (md := object - sizeof_MetaData).
  set (h1 := poke md (set_available true) (mem m)).
  assert (H1 : forall y, pageIndex (h1 y) = pageIndex (mem m y)).
  { intros y. unfold h1.
    destruct (Z.eq_dec y md) as [->|Hne]; poke_simpl; reflexivity. }
  assert (Hn : forall a b h y, pageIndex (merge_next a b h y) = pageIndex (h y)).
  { intros a b h y. unfold merge_next.
    destruct (Z.eq_dec y a) as [->|Hne]; poke_simpl; reflexivity. }
  assert (Hp : forall a b h y, pageIndex (merge_prev a b h y) = pageIndex (h y)).
  { intros a b h y. unfold merge_prev.
    destruct (Z.eq_dec y b) as [->|Hne]; poke_simpl; reflexivity. }
  set (h2 := if available (h1 nx) then merge_next md nx h1 else h1).
  assert (H2 : forall y, pageIndex (h2 y) = pageIndex (mem m y)).
  { intros y. unfold h2. destruct (available (h1 nx)); [rewrite Hn|]; apply H1. }
  destruct (Prev (h2 md)) as [pv|]; [|apply H2].
  destruct (available (h2 pv)); [rewrite Hp|]; apply H2.
Qed.

(** X10.  [Free] marks the block behind its argument available, changes
    the availability of no other header, and assigns no [Prev] and no
    [pageIndex] field at all. *)
Theorem Free_marks_available object m m' :
  Free object m = Ok m' ->
  available (mem m' (object - sizeof_MetaData)) = true /\
  (forall x, x <> object - sizeof_MetaData ->
             available (mem m' x) = available (mem m x)) /\
  (forall x, Prev (mem m' x) = Prev (mem m x)) /\
  (forall x, pageIndex (mem m' x) = pageIndex (mem m x)).
Proof.
  intros HF. destruct (Free_available _ _ _ HF) as [Ha Ho].
  split; [exact Ha|]. split; [exact Ho|].
  split; [eapply Free_keeps_Prev; eauto|eapply Free_pageIndex; eauto].
Qed.

Lemma Free_marks_available_witness :
  available (mem (after (fragmenting ++ [OpFree 7160])) (7160 - sizeof_MetaData))
    = true /\
  (forall x, x <> 7160 - sizeof_MetaData ->
             available (mem (after (fragmenting ++ [OpFree 7160])) x)
               = available (mem (after fragmenting) x)) /\
  (forall x, Prev (mem (after (fragmenting ++ [OpFree 7160])) x)
               = Prev (mem (after fragmenting) x)) /\
  (forall x, pageIndex (mem (after (fragmenting ++ [OpFree 7160])) x)
               = pageIndex (mem (after fragmenting) x)).
Proof.
  apply (Free_marks_available 7160 (after fragmenting)
           (after (fragmenting ++ [OpFree 7160]))).
  vm_compute. reflexivity.
Defined.

(** On a tidy manager the walk to the parent page and the updates of
    [memLeft] go through: the only fault of [Free] is the read through a
    null [Next]. *)
Lemma Free_fault object m e :
  tidy m -> Free object m = Err e -> e = NullDeref.
Proof.
  intros Ht HF.
  pose proof Ht as (_ & _ & _ & idx & Hc & _).
  unfold Free in HF. simpl in HF.
  set (md := object - sizeof_MetaData) in *.
  destruct (owner_valid _ (Z.to_nat (pageIndex (poke md (set_available true) (mem m) md)))
                        _ _ Hc) as (p & pg & Ho & Hp).
  rewrite Ho in HF. simpl in HF.
  unfold credit at 1 in HF. unfold page_at in HF. simpl in HF.
  rewrite Hp in HF. simpl in HF.
  destruct (Next (poke md (set_available true) (mem m) md)) as [nx|];
    simpl in HF; [|congruence].
  exfalso.
  set (ps1 := <[p := set_memLeft _ pg]> (pages m)) in HF.
  assert (Hp1 : exists pg1, ps1 !! p = Some pg1).
  { unfold ps1. rewrite list_lookup_insert_eq by (eapply lookup_lt_Some; eauto). eauto. }
  destruct Hp1 as [pg1 Hp1].
  destruct (available (poke md (set_available true) (mem m) nx)).
  - unfold credit at 1 in HF. unfold page_at in HF. simpl in HF.
    fold ps1 in HF. rewrite Hp1 in HF. simpl in HF.
    destruct (Prev _) as [pv|]; [|discriminate].
    destruct (available _); [|discriminate].
    unfold credit, page_at in HF. simpl in HF.
    rewrite list_lookup_insert_eq in HF by (eapply lookup_lt_Some; eauto).
    simpl in HF. discriminate.
  - simpl in HF. destruct (Prev _) as [pv|]; [|discriminate].
    destruct (available _); [|discriminate].
    unfold credit, page_at in HF. simpl in HF. fold ps1 in HF.
    rewrite Hp1 in HF. simpl in HF. discriminate.
Qed.

(** X11.  On a tidy manager [Free] reads through [metaData->Next]
    whatever it is: for a header whose [Next] is null (the last block of a
    page) the call ends with a read through the null pointer, and for every
    other header it completes. *)
Theorem Free_fails_on_last_block object m :
  tidy m ->
  (Next (mem m (object - sizeof_MetaData)) = None ->
     Free object m = Err NullDeref) /\
  (Next (mem m (object - sizeof_MetaData)) <> None ->
     exists m', Free object m = Ok m').
Proof.
  intros Ht. split.
  - intros Hn. destruct (Free object m) as [m'|e] eqn:HF.
    + exfalso. exact (Free_last_block _ _ Hn m' HF).
    + f_equal. eapply Free_fault; eauto.
  - intros Hn. apply Free_completes; assumption.
Qed.

Lemma Free_fails_on_last_block_witness :
  (Next (mem TestManager (4112 - sizeof_MetaData)) = None ->
     Free 4112 TestManager = Err NullDeref) /\
  (Next (mem TestManager (4112 - sizeof_MetaData)) <> None ->
     exists m', Free 4112 TestManager = Ok m').
Proof.
  apply (Free_fails_on_last_block 4112 TestManager).
  exact TestManager_tidy.
Defined.

(** The walk to the parent page ends at position [min n (length - 1)] of
    the page list; [credit] writes one page record. *)
Lemma owner_nth ps : forall n idx p,
  page_chain ps (Some p) idx ->
  exists q, owner n ps p = Ok q /\
            idx !! Nat.min n (length idx - 1) = Some q.
Proof.
  induction n as [|n IH]; intros idx p Hc;
    (destruct idx as [|i idx]; simpl in Hc; [discriminate|]);
    destruct Hc as ([= <-] & pg & Hpg & Hc).
  - exists p. split; reflexivity.
  - simpl owner. unfold page_at. rewrite Hpg. simpl.
    destruct idx as [|j idx].
    + simpl in Hc. rewrite Hc. exists p. split; reflexivity.
    + assert (Hn : Page_Next pg = Some j) by (simpl in Hc; apply Hc).
      rewrite Hn. destruct (IH (j :: idx) j) as (q & Ho & Hq).
      { rewrite <- Hn. exact Hc. }
      exists q. split; [exact Ho|].
      simpl length in *.
      replace (S (S (length idx)) - 1)%nat with (S (length idx)) by lia.
      replace (S (length idx) - 1)%nat with (length idx) in Hq by lia.
      exact Hq.
Qed.

Lemma credit_pages p v m m' :
  credit p v m = Ok m' -> forall j, j <> p -> pages m' !! j = pages m !! j.
Proof.
  unfold credit, page_at. destruct (pages m !! p) as [pg|]; simpl; [|discriminate].
  intros [= <-] j Hj. simpl. apply list_lookup_insert_ne. congruence.
Qed.

Lemma Free_credits object m m' :
  Free object m = Ok m' ->
  exists p,
    owner (Z.to_nat (pageIndex (mem m (object - sizeof_MetaData))))
          (pages m) (pageList m) = Ok p /\
    forall j, j <> p -> pages m' !! j = pages m !! j.
Proof.
  intros HF. unfold Free in HF. simpl in HF.
  set (md := object - sizeof_MetaData) in *.
  rewrite poke_eq in HF. simpl in HF.
  destruct (owner _ _ _) as [p|e]; simpl in HF; [|discriminate].
  exists p. split; [reflexivity|]. intros j Hj.
  destruct (credit p _ _) as [m2|e] eqn:Hc1; simpl in HF; [|discriminate].
  pose proof (credit_pages _ _ _ _ Hc1 j Hj) as H1. simpl in H1.
  destruct (deref (Next (mem m2 md)) NullDeref) as [nx|e]; simpl in HF; [|discriminate].
  destruct (available (mem m2 nx)).
  - destruct (credit p sizeof_MetaData _) as [m3|e] eqn:Hc2; simpl in HF; [|discriminate].
    pose proof (credit_pages _ _ _ _ Hc2 j Hj) as H2. simpl in H2.
    destruct (Prev (mem m3 md)) as [pv|].
    + destruct (available (mem m3 pv)).
      * pose proof (credit_pages _ _ _ _ HF j Hj) as H3. simpl in H3. congruence.
      * injection HF as <-. congruence.
    + injection HF as <-. congruence.
  - simpl in HF. destruct (Prev (mem m2 md)) as [pv|].
    + destruct (available (mem m2 pv)).
      * pose proof (credit_pages _ _ _ _ HF j Hj) as H3. simpl in H3. congruence.
      * injection HF as <-. congruence.
    + injection HF as <-. congruence.
Qed.

(** X12.  [Free] credits one page record: the one at position
    [pageIndex] of the page list, or the last one when the list is shorter.
    Every other page record is left as it was. *)
Theorem Free_credits_one_page object m m' :
  tidy m -> Free object m = Ok m' ->
  exists idx p,
    page_chain (pages m) (Some (pageList m)) idx /\
    idx !! Nat.min (Z.to_nat (pageIndex (mem m (object - sizeof_MetaData))))
                   (length idx - 1) = Some p /\
    forall j, j <> p -> pages m' !! j = pages m !! j.
Proof.
  intros (_ & _ & _ & idx & Hc & _) HF.
  destruct (Free_credits _ _ _ HF) as (p & Ho & Hj).
  destruct (owner_nth _ (Z.to_nat (pageIndex (mem m (object - sizeof_MetaData))))
                      _ _ Hc) as (q & Ho' & Hq).
  exists idx, p. split; [exact Hc|]. split; [congruence|exact Hj].
Qed.

Lemma Free_credits_one_page_witness :
  exists idx p,
    page_chain (pages (after fragmenting))
               (Some (pageList (after fragmenting))) idx /\
    idx !! Nat.min (Z.to_nat (pageIndex (mem (after fragmenting)
                                             (7160 - sizeof_MetaData))))
                   (length idx - 1) = Some p /\
    forall j, j <> p ->
      pages (after (fragmenting ++ [OpFree 7160])) !! j
        = pages (after fragmenting) !! j.
Proof.
  apply (Free_credits_one_page 7160 (after fragmenting)
           (after (fragmenting ++ [OpFree 7160]))).
  - exact fragmenting_tidy.
  - vm_compute. reflexivity.
Defined.

(** ** Writes stay inside the pages *)

(** Page-scan placement writes headers of the chosen page only. *)
Lemma place_local fuel m size i pg w :
  tidy m -> 0 <= size ->
  search fuel m size (Some (pageList m)) = Ok (Some (i, pg, w)) ->
  forall x, x < chunk pg \/ chunk pg + pageSize m <= x ->
            mem (snd (place i pg w size m)) x = mem m x.
Proof.
  pose proof sizeof_MetaData_eq as HH.
  intros Ht Hsize Hs x Hx.
  pose proof Ht as (Hps & Hft & Hsum & _).
  destruct (search_reaches _ _ _ _ _ _ Hs) as (Hr & Hi & _).
  destruct (search_fits _ _ _ _ _ _ _ Hs) as (_ & _ & _ & Hle).
  apply search_sound in Hs.
  destruct Hs as (sk & bl & _ & _ & _ & _ & Hwalk & Hworst).
  apply worst_some in Hworst. destruct Hworst as (l1 & l2 & -> & _).
  pose proof (tidy_laid_out _ _ _ _ Ht Hr Hi Hwalk) as Hlo.
  assert (Hwin : In w (l1 ++ w :: l2)) by (apply in_or_app; right; left; reflexivity).
  destruct (laid_out_bounds _ _ _ _ _ Hlo w Hwin) as (Hwlo & Hws & Hwhi).
  assert (Hsucc : forall c, Next (mem m w) = Some c ->
                            c = w + sizeof_MetaData + Size (mem m w)).
  { intros c Hc. eapply laid_out_succ; eauto. }
  destruct (place_memory i pg w size m) as [Hsplit Habsorb];
    [lia|lia|lia|lia|intros c Hc; rewrite (Hsucc c Hc); lia|].
  destruct (Z.lt_ge_cases (fragmentThreshold m + sizeof_MetaData)
                          (Size (mem m w) - size)) as [Hsp|Hab].
  - destruct (Hsplit Hsp) as (_ & _ & _ & Hx'). apply Hx'; try lia.
    intros Hc. pose proof (laid_out_succ_in _ _ _ _ _ _ _ Hlo Hwin Hc) as Hcin.
    destruct (laid_out_bounds _ _ _ _ _ Hlo _ Hcin) as (? & ? & ?). lia.
  - destruct (Habsorb ltac:(lia)) as (_ & Hx'). apply Hx'. lia.
Qed.

(** The pages of the list stay on the list, with their buffers, when page
    records change in [memLeft] only. *)
Lemma reaches_same_layout m m' i pg :
  tidy m -> pageList m' = pageList m -> same_layout (pages m) (pages m') ->
  reaches m i -> pages m !! i = Some pg ->
  exists pg', reaches m' i /\ pages m' !! i = Some pg' /\ chunk pg' = chunk pg.
Proof.
  intros (_ & _ & _ & idx & Hc & _) Hpl Hsame [sk Hr] Hi.
  destruct (proj2 Hsame i pg Hi) as (pg' & Hpg' & _ & Hchunk).
  exists pg'. split; [|auto].
  unfold reaches. rewrite Hpl.
  eapply page_chain_reaches; [eapply page_chain_same_layout; eauto|].
  eapply page_path_chain; eauto.
Qed.

(** [Free] writes headers of the page of the freed block only. *)
Lemma Free_local object m m' :
  tidy m -> holds m (object - sizeof_MetaData) -> Free object m = Ok m' ->
  pageSize m' = pageSize m /\
  exists i pg,
    reaches m' i /\ pages m' !! i = Some pg /\
    forall x, x < chunk pg \/ chunk pg + pageSize m <= x -> mem m' x = mem m x.
Proof.
  pose proof sizeof_MetaData_eq as HH.
  intros Ht Hh HF.
  destruct (tidy_holds _ _ Ht Hh) as (i & pg & l1 & l2 & Hr & Hi & Hl).
  pose proof Ht as (Hpsz & _).
  apply Free_effect in HF. simpl in HF. destruct HF as (nx & Hnx & Hrec).
  set (md := object - sizeof_MetaData) in *.
  set (h1 := poke md (set_available true) (mem m)) in *.
  assert (Hl1 : laid_out h1 None (chunk pg) (l1 ++ md :: l2) (chunk pg + pageSize m)).
  { eapply laid_out_frame; [|exact Hl]. intros d _. unfold h1.
    destruct (Z.eq_dec d md) as [->|Hd]; poke_simpl; auto. }
  assert (Hloc1 : forall x, x <> md -> h1 x = mem m x).
  { intros x Hx. unfold h1. poke_simpl. reflexivity. }
  assert (Hmd : In md (l1 ++ md :: l2)) by (apply in_or_app; right; left; reflexivity).
  destruct (laid_out_bounds _ _ _ _ _ Hl md Hmd) as (Hlo & Hmds & Hhi).
  pose proof (laid_out_next _ _ _ _ _ _ _ Hl) as Hhead. rewrite Hnx in Hhead.
  destruct l2 as [|nx' l2]; [discriminate|]. injection Hhead as <-.
  assert (Hsmall : chunk pg + pageSize m - chunk pg < 2 ^ 32) by lia.
  destruct (forward_laid_out h1 md nx l1 l2 _ _ Hl1 Hsmall) as [[l2' Hl2] Hloc2].
  set (h2 := if available (h1 nx) then merge_next md nx h1 else h1) in *.
  destruct (backward_laid_out h2 md l1 l2' _ _ Hl2 Hsmall) as [_ Hloc3].
  set (h3 := match Prev (h2 md) with
             | Some pv => if available (h2 pv) then merge_prev md pv h2 else h2
             | None => h2
             end) in *.
  destruct Hrec as (Hps' & _ & Hpl' & _ & Hm' & Hsame). simpl in *.
  split; [exact Hps'|].
  destruct (reaches_same_layout m m' i pg Ht Hpl' Hsame Hr Hi) as (pg' & Hr' & Hi' & Hch).
  exists i, pg'. split; [exact Hr'|]. split; [exact Hi'|].
  intros x Hx. rewrite Hch in Hx.
  rewrite Hm', Hloc3 by lia. rewrite Hloc2 by lia. apply Hloc1. lia.
Qed.

(** The growth path with room writes two headers of the new page, which is
    on the page list afterwards. *)
Lemma grow_local base size m m' ptr :
  tidy m -> 0 <= size ->
  size + 2 * sizeof_MetaData <= pageSize m ->
  grow (Some base) size m = Ok (ptr, m') ->
  pageSize m' = pageSize m /\
  exists pg,
    reaches m' (lastPage m') /\ pages m' !! lastPage m' = Some pg /\
    chunk pg = base /\
    forall x, x < base \/ base + pageSize m <= x -> mem m' x = mem m x.
Proof.
  pose proof sizeof_MetaData_eq as HH.
  intros Ht Hsize Hfit Hg.
  pose proof Ht as (Hps & Hft & Hsum & idx & Hchain & Hlast & Hbl & Hapart).
  destruct (page_chain_valid _ _ _ _ Hchain (last_In _ _ Hlast)) as [lp Hlp].
  destruct (grow_effect base size m lp Hlp Hsize)
    as (m2 & Hg2 & Hpsz & Hftm & Hpl & Hlp2 & Hpages & Hb & Hn & Hx).
  rewrite Hg in Hg2. injection Hg2 as -> <-.
  split; [exact Hpsz|].
  assert (Hchain' : page_chain (pages m') (Some (pageList m'))
                               (idx ++ [length (pages m)])).
  { rewrite Hpl, Hpages. apply page_chain_extend; auto. }
  eexists. split; [|split; [|split]].
  - rewrite Hlp2. eapply page_chain_reaches; [exact Hchain'|].
    apply in_or_app. right. left. reflexivity.
  - rewrite Hlp2, Hpages. apply list_lookup_middle. rewrite length_insert. reflexivity.
  - reflexivity.
  - intros x Hxout. apply Hx; lia.
Qed.

(** X13.  A call within the conditions under which the layout is kept
    writes inside the page buffers only: a header-typed read at an address
    outside the buffer of every page on the page list finds after the call
    what it found before, and [pageSize] is unchanged. *)
Theorem step_writes_within_pages fuel o m m' :
  tidy m -> admissible fuel [o] m -> step fuel o m = Ok m' ->
  pageSize m' = pageSize m /\
  forall x,
    (forall i pg, reaches m' i -> pages m' !! i = Some pg ->
                  x < chunk pg \/ chunk pg + pageSize m <= x) ->
    mem m' x = mem m x.
Proof.
  pose proof sizeof_MetaData_eq as HH.
  intros Ht Hadm Hstep. destruct o as [fresh size|object]; simpl in Hadm, Hstep.
  - destruct Hadm as (Hsize & Hgrow & _).
    destruct (Allocate fuel fresh size m) as [[ptr m1]|e] eqn:HA;
      simpl in Hstep; [|discriminate].
    injection Hstep as ->. unfold Allocate in HA.
    destruct (Z.gtb_spec size (pageSize m)) as [Hgt|Hle].
    { injection HA as _ <-. split; reflexivity. }
    destruct (search fuel m size (Some (pageList m))) as [[[[i pg] w]|]|e] eqn:Hs;
      simpl in HA; [| |discriminate].
    + assert (Hm' : snd (place i pg w size m) = m').
      { assert (Hpm : place i pg w size m = (ptr, m')) by congruence.
        rewrite Hpm. reflexivity. }
      clear HA.
      destruct (search_reaches _ _ _ _ _ _ Hs) as (Hr & Hi & _).
      assert (Hsame : same_layout (pages m) (pages (snd (place i pg w size m)))).
      { unfold place. simpl. apply same_layout_memLeft. assumption. }
      destruct (reaches_same_layout m (snd (place i pg w size m)) i pg Ht eq_refl
                  Hsame Hr Hi)
        as (pg' & Hr' & Hi' & Hch).
      pose proof (place_local _ _ _ _ _ _ Ht Hsize Hs) as Hloc.
      rewrite Hm' in *. split; [rewrite <- Hm'; reflexivity|].
      intros x Hx. apply Hloc. rewrite <- Hch. eapply Hx; eauto.
    + destruct (bAllocate m); simpl in HA; [|discriminate].
      destruct (Hgrow eq_refl) as [Hroom _].
      destruct fresh as [base|]; [|unfold grow in HA; simpl in HA; discriminate].
      destruct (grow_local _ _ _ _ _ Ht Hsize Hroom HA)
        as (Hps' & pg & Hr' & Hi' & Hch & Hloc).
      split; [exact Hps'|]. intros x Hx. apply Hloc.
      rewrite <- Hch. eapply Hx; eauto.
  - destruct Hadm as (Hh & _).
    destruct (Free_local _ _ _ Ht Hh Hstep) as (Hps' & i & pg & Hr' & Hi' & Hloc).
    split; [exact Hps'|]. intros x Hx. apply Hloc. eapply Hx; eauto.
Qed.

Lemma step_writes_within_pages_witness :
  pageSize (after (filling ++ [OpAllocate (Some 100000) 2000]))
    = pageSize (after filling) /\
  forall x,
    (forall i pg,
       reaches (after (filling ++ [OpAllocate (Some 100000) 2000])) i ->
       pages (after (filling ++ [OpAllocate (Some 100000) 2000])) !! i = Some pg ->
       x < chunk pg \/ chunk pg + pageSize (after filling) <= x) ->
    mem (after (filling ++ [OpAllocate (Some 100000) 2000])) x
      = mem (after filling) x.
Proof.
  apply (step_writes_within_pages 10 (OpAllocate (Some 100000) 2000)
           (after filling) (after (filling ++ [OpAllocate (Some 100000) 2000]))).
  - exact filling_tidy.
  - cbn [admissible]. allocate_step. exact I.
  - vm_compute. reflexivity.
Defined.

(** ** Sequences of calls *)

(** X14.  Along every admissible sequence of calls on a tidy manager
    the manager stays tidy and keeps its page size: the blocks of every page
    on the page list fill its buffer exactly, each within the buffer, and
    two different blocks never overlap. *)
Theorem run_keeps_blocks_apart fuel os m m' :
  tidy m -> admissible fuel os m -> run fuel os m = Ok m' ->
  tidy m' /\
  (forall i pg bl,
     reaches m' i -> pages m' !! i = Some pg ->
     block_walk (mem m') (Some (chunk pg)) bl ->
     span (mem m') bl = pageSize m /\
     forall d, In d bl ->
       chunk pg <= d /\
       d + sizeof_MetaData + Size (mem m' d) <= chunk pg + pageSize m) /\
  (forall d1 d2,
     holds m' d1 -> holds m' d2 -> d1 <> d2 ->
     d1 + sizeof_MetaData + Size (mem m' d1) <= d2 \/
     d2 + sizeof_MetaData + Size (mem m' d2) <= d1).
Proof.
  intros Ht Hadm Hrun.
  pose proof (run_tidy _ _ _ _ Ht Hadm Hrun) as Ht'.
  assert (Hps : pageSize m' = pageSize m).
  { clear Ht Hadm Ht'. revert m Hrun.
    induction os as [|o os IH]; intros m Hrun; simpl in Hrun.
    - congruence.
    - destruct (step fuel o m) as [m1|e] eqn:Hstep; simpl in Hrun; [|discriminate].
      rewrite (IH _ Hrun). clear IH Hrun.
      destruct o as [fresh size|object]; simpl in Hstep.
      + destruct (Allocate fuel fresh size m) as [[ptr m2]|e] eqn:HA;
          simpl in Hstep; [|discriminate].
        injection Hstep as ->. unfold Allocate in HA.
        destruct (size >? pageSize m); [congruence|].
        destruct (search fuel m size (Some (pageList m))) as [[[[i pg] w]|]|e];
          simpl in HA; [| |discriminate].
        * unfold place in HA. injection HA as _ <-. reflexivity.
        * destruct (negb (bAllocate m)); [discriminate|].
          unfold grow, RequestPage in HA.
          destruct (deref fresh Aborted) as [base|]; simpl in HA; [|discriminate].
          destruct (page_at (pages m) (lastPage m)); simpl in HA; [|discriminate].
          unfold carve in HA. simpl in HA.
          destruct (page_at _ _); simpl in HA; [|discriminate].
          injection HA as _ <-. reflexivity.
      + apply Free_effect in Hstep. simpl in Hstep.
        destruct Hstep as (nx & _ & (Hp & _)). exact Hp. }
  rewrite <- Hps. split; [exact Ht'|]. split.
  - intros i pg bl Hr Hi Hw.
    destruct (tidy_conservation _ _ _ _ Ht' Hr Hi Hw) as [Hspan Hb].
    split; [exact Hspan|]. intros d Hd. destruct (Hb d Hd) as (? & ? & ?). auto.
  - intros d1 d2. apply tidy_blocks_apart. exact Ht'.
Qed.

Lemma run_keeps_blocks_apart_witness :
  tidy (after fragmenting) /\
  (forall i pg bl,
     reaches (after fragmenting) i -> pages (after fragmenting) !! i = Some pg ->
     block_walk (mem (after fragmenting)) (Some (chunk pg)) bl ->
     span (mem (after fragmenting)) bl = pageSize TestManager /\
     forall d, In d bl ->
       chunk pg <= d /\
       d + sizeof_MetaData + Size (mem (after fragmenting) d)
         <= chunk pg + pageSize TestManager) /\
  (forall d1 d2,
     holds (after fragmenting) d1 -> holds (after fragmenting) d2 -> d1 <> d2 ->
     d1 + sizeof_MetaData + Size (mem (after fragmenting) d1) <= d2 \/
     d2 + sizeof_MetaData + Size (mem (after fragmenting) d2) <= d1).
Proof.
  apply (run_keeps_blocks_apart 10 fragmenting TestManager (after fragmenting)).
  - exact TestManager_tidy.
  - exact fragmenting_admissible.
  - vm_compute. reflexivity.
Defined.

(** ** What [FreeAllPages] releases *)




(** ** What [MemoryDump] shows *)

(** Counting the lines of a dump. *)
Lemma count_app f l1 l2 : count f (l1 ++ l2) = count f l1 + count f l2.
Proof. unfold count. rewrite List.filter_app, length_app. lia. Qed.

Lemma count_cons f x l : count f (x :: l) = (if f x then 1 else 0) + count f l.
Proof. unfold count. simpl. destruct (f x); simpl length; lia. Qed.

Lemma count_nil f : count f [] = 0.
Proof. reflexivity. Qed.

Lemma dump_content_count content data : forall left offset,
  count is_content (dump_content content data offset left) = Z.of_nat left /\
  count is_header (dump_content content data offset left) = 0 /\
  count is_page (dump_content content data offset left) = 0.
Proof.
  induction left as [|left IH]; intros offset.
  - repeat split.
  - destruct (IH (offset + 1)) as (H1 & H2 & H3).
    cbn [dump_content]. rewrite !count_cons, H1, H2, H3. simpl. lia.
Qed.

(** A layout of [n] blocks covers at least [n] headers. *)
Lemma laid_out_length h stop : forall l lo a,
  laid_out h lo a l stop -> sizeof_MetaData * Z.of_nat (length l) <= stop - a.
Proof.
  pose proof sizeof_MetaData_eq as HH.
  induction l as [|d l IH]; simpl length; intros lo a Hl.
  - simpl in Hl. lia.
  - simpl in Hl. destruct Hl as (-> & Hs & _ & _ & Hl). apply IH in Hl. lia.
Qed.

(** The dump of a laid out buffer: one header group for each block, and
    byte lines and headers that add up to the buffer. *)
Lemma dump_blocks_laid_out h content stop : forall l lo a fuel,
  laid_out h lo a l stop -> (length l <= fuel)%nat ->
  exists out,
    dump_blocks fuel h content (head l) = Ok out /\
    count is_page out = 0 /\
    count is_header out = Z.of_nat (length l) /\
    count is_content out + sizeof_MetaData * count is_header out = stop - a.
Proof.
  pose proof sizeof_MetaData_eq as HH.
  induction l as [|d l IH]; intros lo a fuel Hl Hlen.
  - simpl in Hl. subst a. exists []. split; [destruct fuel; reflexivity|].
    rewrite !count_nil. simpl. lia.
  - simpl in Hl. destruct Hl as (-> & Hs & Hn & _ & Hl).
    destruct fuel as [|fuel]; simpl in Hlen; [lia|].
    destruct (IH _ _ fuel Hl ltac:(lia)) as (rest & Hr & Hp & Hh & Hsum).
    cbn [head dump_blocks]. rewrite Hn, Hr. cbn [bind].
    eexists. split; [reflexivity|].
    destruct (dump_content_count content (a + sizeof_MetaData)
                (Z.to_nat (Size (h a))) 0) as (H1 & H2 & H3).
    rewrite !count_app, !count_cons, !count_nil, H1, H2, H3, Hp, Hh.
    rewrite Hh in Hsum. simpl is_page. simpl is_header. simpl is_content.
    simpl length. lia.
Qed.

Lemma dump_pages_chain m content : forall idx p fuel pageNumber,
  tidy m -> page_chain (pages m) p idx ->
  (forall i, In i idx -> reaches m i) ->
  (length idx + Z.to_nat (pageSize m) <= fuel)%nat ->
  exists out,
    dump_pages fuel m content pageNumber p = Ok out /\
    count is_page out = Z.of_nat (length idx) /\
    count is_content out + sizeof_MetaData * count is_header out
      = pageSize m * Z.of_nat (length idx).
Proof.
  pose proof sizeof_MetaData_eq as HH.
  induction idx as [|i idx IH]; intros p fuel pageNumber Ht Hc Hreach Hfuel.
  - simpl in Hc. subst p. exists []. split; [destruct fuel; reflexivity|].
    rewrite !count_nil. simpl. lia.
  - simpl in Hc. destruct Hc as (-> & pg & Hpg & Hc).
    destruct fuel as [|fuel]; simpl in Hfuel; [lia|].
    pose proof Ht as (Hps & _ & _ & idx0 & Hc0 & _ & Hbl & _).
    assert (Hr : reaches m i) by (apply Hreach; left; reflexivity).
    assert (Hi0 : In i idx0) by (destruct Hr as [sk Hr]; eapply page_path_chain; eauto).
    destruct (Hbl i pg Hi0 Hpg) as (bl & Hlo).
    pose proof (laid_out_length _ _ _ _ _ Hlo) as Hlen.
    assert (Hhead : head bl = Some (chunk pg)).
    { destruct bl as [|b bl]; simpl in Hlo; [lia|]. destruct Hlo as (-> & _). reflexivity. }
    destruct (dump_blocks_laid_out (mem m) content _ bl None _ fuel Hlo ltac:(lia))
      as (blocks & Hb & Hbp & _ & Hbsum).
    destruct (IH (Page_Next pg) fuel (wrap32 (pageNumber + 1)) Ht Hc
                 ltac:(intros j Hj; apply Hreach; right; exact Hj) ltac:(lia))
      as (rest & Hrest & Hrp & Hrsum).
    cbn [dump_pages]. unfold page_at. rewrite Hpg. cbn [deref bind].
    rewrite <- Hhead, Hb. cbn [bind]. rewrite Hrest. cbn [bind].
    eexists. split; [reflexivity|].
    rewrite !count_cons, !count_app, !count_cons, !count_nil, Hbp, Hrp.
    simpl is_page. simpl is_header. simpl is_content. simpl length. lia.
Qed.

(** X16.  On a tidy manager [MemoryDump] returns once the loop bound
    covers the page list and a page of headers.  The dump has one page line
    for each page of the page list, and its byte lines together with
    [sizeof(MetaData)] bytes for each header group account for every byte
    of those pages. *)
Theorem MemoryDump_shows_every_payload_byte content m :
  tidy m ->
  exists n, forall fuel, (n <= fuel)%nat ->
    exists out idx,
      MemoryDump fuel content m = Ok out /\
      page_chain (pages m) (Some (pageList m)) idx /\
      count is_page out = Z.of_nat (length idx) /\
      count is_content out + sizeof_MetaData * count is_header out
        = pageSize m * count is_page out.
Proof.
  intros Ht. pose proof Ht as (_ & _ & _ & idx & Hc & _).
  exists (length idx + Z.to_nat (pageSize m))%nat. intros fuel Hfuel.
  destruct (dump_pages_chain m content idx _ fuel 0 Ht Hc) as (out & Ho & Hp & Hsum).
  - intros i Hi. eapply page_chain_reaches; eauto.
  - exact Hfuel.
  - exists out, idx. rewrite Hp. auto.
Qed.

Lemma MemoryDump_shows_every_payload_byte_witness :
  exists n, forall fuel, (n <= fuel)%nat ->
    exists out idx,
      MemoryDump fuel (fun _ => 0) (after fragmenting) = Ok out /\
      page_chain (pages (after fragmenting))
                 (Some (pageList (after fragmenting))) idx /\
      count is_page out = Z.of_nat (length idx) /\
      count is_content out + sizeof_MetaData * count is_header out
        = pageSize (after fragmenting) * count is_page out.
Proof.
  apply (MemoryDump_shows_every_payload_byte (fun _ => 0) (after fragmenting)).
  exact fragmenting_tidy.
Defined.
